(** * OpenPGP key aggregate and Symmetrically Encrypted Data packet

    A shallow embedding of [src/packet/symmetrically_encrypted.js]: the
    Symmetrically Encrypted Data packet (Tag 9) and the [Key] class that
    follows it in the same file.

    JavaScript objects are references: a packet list holds locations of a
    store of packet objects, [filterByTag] returns a new list of the same
    locations, and a method that mutates a packet updates the store.  The
    packet classes, the packet list, the enumeration tables and the CFB
    cipher live in other files; they appear here as interfaces. *)

From Stdlib Require Import ZArith List Ascii String Bool Lia.
From stdpp Require Import base list strings.
Import ListNotations.

(** ** Values shared by both classes *)

(** Binary data is carried in JavaScript strings. *)
Definition bytes := string.

(** Exceptions: the [TypeError] the runtime raises when a property of
    [null] or [undefined] is read, and an [Error] thrown by a collaborator. *)
Inductive exn : Type :=
| TypeError
| Error (msg : string).

Inductive result (A : Type) : Type :=
| Ok (a : A)
| Throw (e : exn).
Arguments Ok {A} a.
Arguments Throw {A} e.

(** Sequencing: an exception ends the computation. *)
#[global] Instance result_bind : MBind result :=
  fun A B (f : A -> result B) (r : result A) =>
    match r with
    | Ok a => f a
    | Throw e => Throw e
    end.

(** ** Enumeration tables ([enums.js], not part of these sources) *)

(** The entries of [enums.packet] that the code reads.  A packet tag is a
    number.  [enums.packet.private_key] is read by [isPrivate] only; a name
    the table does not define reads as [undefined], which is [None]. *)
Record PacketEnum : Type := mkPacketEnum {
  public_key : Z;
  secret_key : Z;
  public_subkey : Z;
  secret_subkey : Z;
  private_key : option Z
}.

(** Modelled from the spec: [enums.js] is missing; the packet kinds are those
    of the data model (public_key, secret_key, public_subkey, secret_subkey,
    ...), numbered as RFC 4880 section 4.3 numbers them, and private_key is
    a synonym of secret_key. *)
Definition rfc4880_packet : PacketEnum :=
  {| public_key := 6;
     secret_key := 5;
     public_subkey := 14;
     secret_subkey := 7;
     private_key := Some 5%Z |}.

(** The names [enums.read(enums.publicKey, enums.publicKey.X)] yields for the
    three algorithms the code names; a key packet stores such a name in its
    [algorithm] field. *)
Record PublicKeyNames : Type := mkPublicKeyNames {
  rsa_encrypt_sign : string;
  rsa_sign : string;
  dsa : string
}.

Definition rfc4880_publicKey : PublicKeyNames :=
  {| rsa_encrypt_sign := "rsa_encrypt_sign";
     rsa_sign := "rsa_sign";
     dsa := "dsa" |}.

(** The two entries of [enums.armor] that [armor] reads: the armor types of
    a public and of a private key block. *)
Record ArmorEnum : Type := mkArmorEnum {
  armor_public_key : Z;
  armor_private_key : Z
}.

(** The four key tags are pairwise different numbers. *)
Definition key_tags_distinct (E : PacketEnum) : Prop :=
  List.NoDup [public_key E; secret_key E; public_subkey E; secret_subkey E].

(** ** Packets (the packet classes are collaborators) *)

(** Modelled from the spec: a KeyID is a fixed-length byte identifier that
    supports equality comparison. *)
Definition KeyId := string.

Definition keyid_equals (a b : KeyId) : bool := String.eqb a b.

(** What the [Key] class uses of a packet object: the fields [tag] and
    [algorithm], the methods [getKeyId()], [writePublicKey()] and
    [decrypt(passphrase)] (which changes the packet and answers whether it
    succeeded), and the two constructions
    [p = new packet.public_key(); p.read(bytes)] and
    [p = new packet.public_subkey(); p.read(bytes)]. *)
Class PacketOps (Packet : Type) : Type := {
  tag : Packet -> Z;
  algorithm : Packet -> string;
  getKeyId : Packet -> KeyId;
  writePublicKey : Packet -> bytes;
  packet_decrypt : string -> Packet -> Packet * bool;
  read_public_key : bytes -> Packet;
  read_public_subkey : bytes -> Packet
}.

(** Modelled from the spec: the derived packets are the corresponding
    public_key / public_subkey packets, so they carry those tags. *)
Definition constructors_tagged {Packet : Type} `{PacketOps Packet}
    (E : PacketEnum) : Prop :=
  (forall b, tag (read_public_key b) = public_key E) /\
  (forall b, tag (read_public_subkey b) = public_subkey E).

(** ** The store of packet objects *)

Definition loc := nat.

Section Store.
Context {Packet : Type}.

(** [cell h l] is the object at location [l]; locations below [next h]
    have been handed out. *)
Record Heap : Type := mkHeap {
  cell : loc -> Packet;
  next : loc
}.

(** Assignment to the object at [l]. *)
Definition store (l : loc) (p : Packet) (h : Heap) : Heap :=
  {| cell := fun l' => if Nat.eqb l' l then p else cell h l';
     next := next h |}.

(** [new]: a fresh object. *)
Definition alloc (p : Packet) (h : Heap) : loc * Heap :=
  (next h,
   {| cell := fun l' => if Nat.eqb l' (next h) then p else cell h l';
      next := S (next h) |}).

(** Every reference of the list denotes an object handed out before. *)
Definition allocated (h : Heap) (ps : list loc) : Prop :=
  Forall (fun l => l < next h) ps.
End Store.
Arguments Heap Packet : clear implicits.

(** ** The packet list (collaborator) *)

Section PacketList.
Context {Packet : Type} `{PacketOps Packet}.

(** [packet.tag == packetType], where [packetType] may be [undefined]. *)
Definition tag_matches (t : Z) (packetType : option Z) : bool :=
  match packetType with
  | Some n => Z.eqb t n
  | None => false
  end.

(** Modelled from the spec: [filterByTag(tag, ...)] is missing; it returns
    the subsequence of the packets whose tag is one of the arguments,
    preserving order.  The result refers to the same packet objects. *)
Definition filterByTag (h : Heap Packet) (packetTypes : list (option Z))
    (ps : list loc) : list loc :=
  List.filter
    (fun l => existsb (tag_matches (tag (cell h l))) packetTypes) ps.
End PacketList.

(** ** The [Key] class *)

Module Key.
Section Key.
Context {Packet : Type} `{PacketOps Packet}.
Variable E : PacketEnum.
Variable A : PublicKeyNames.

(** [this.packets]: the packet list the key owns. *)
Record t : Type := mk { packets : list loc }.

(** [getKeyPacket]: the loop over [this.packets], from index [i] on. *)
Fixpoint getKeyPacket_from (h : Heap Packet) (ps : list loc) : option loc :=
  match ps with
  | [] => None
  | l :: rest =>
      if Z.eqb (tag (cell h l)) (public_key E)
         || Z.eqb (tag (cell h l)) (secret_key E)
      then Some l
      else getKeyPacket_from h rest
  end.

Definition getKeyPacket (h : Heap Packet) (k : t) : option loc :=
  getKeyPacket_from h (packets k).

(** [getSubkeyPackets]: the loop pushes onto [subkeys]. *)
Fixpoint getSubkeyPackets_from (h : Heap Packet) (ps : list loc)
    (subkeys : list loc) : list loc :=
  match ps with
  | [] => subkeys
  | l :: rest =>
      if Z.eqb (tag (cell h l)) (public_subkey E)
         || Z.eqb (tag (cell h l)) (secret_subkey E)
      then getSubkeyPackets_from h rest (subkeys ++ [l])
      else getSubkeyPackets_from h rest subkeys
  end.

Definition getSubkeyPackets (h : Heap Packet) (k : t) : list loc :=
  getSubkeyPackets_from h (packets k) [].

(** [getAllKeyPackets]: [[this.getKeyPacket()].concat(this.getSubkeyPackets())];
    the first entry is [null] ([None]) when there is no primary key. *)
Definition getAllKeyPackets (h : Heap Packet) (k : t) : list (option loc) :=
  [getKeyPacket h k] ++ map Some (getSubkeyPackets h k).

(** [getKeyIds]: [keys[i].getKeyId()] on a [null] entry is a [TypeError]. *)
Fixpoint getKeyIds_from (h : Heap Packet) (keys : list (option loc))
    (keyIds : list KeyId) : result (list KeyId) :=
  match keys with
  | [] => Ok keyIds
  | None :: _ => Throw TypeError
  | Some l :: rest => getKeyIds_from h rest (keyIds ++ [getKeyId (cell h l)])
  end.

Definition getKeyIds (h : Heap Packet) (k : t) : result (list KeyId) :=
  getKeyIds_from h (getAllKeyPackets h k) [].

(** [findKey]: the inner loop over [keyIds]. *)
Fixpoint findKey_matches (keyId : KeyId) (keyIds : list KeyId) : bool :=
  match keyIds with
  | [] => false
  | c :: rest => if keyid_equals keyId c then true else findKey_matches keyId rest
  end.

(** [findKey]: the outer loop over [keys]. *)
Fixpoint findKey (h : Heap Packet) (keys : list loc) (keyIds : list KeyId)
    : option loc :=
  match keys with
  | [] => None
  | l :: rest =>
      if findKey_matches (getKeyId (cell h l)) keyIds then Some l
      else findKey h rest keyIds
  end.

Definition getPublicKeyPacket (h : Heap Packet) (k : t) (keyIds : list KeyId)
    : option loc :=
  let keys :=
    filterByTag h [Some (public_key E); Some (public_subkey E)] (packets k) in
  findKey h keys keyIds.

Definition getPrivateKeyPacket (h : Heap Packet) (k : t) (keyIds : list KeyId)
    : option loc :=
  let keys :=
    filterByTag h [Some (secret_key E); Some (secret_subkey E)] (packets k) in
  findKey h keys keyIds.

(** [isPublic]: [publicKeyPackets.length ? true : false]. *)
Definition isPublic (h : Heap Packet) (k : t) : bool :=
  let publicKeyPackets := filterByTag h [Some (public_key E)] (packets k) in
  negb (Nat.eqb (length publicKeyPackets) 0).


(** [toPublic]: the loop [for (i = 0; i < this.packets.length; i++)],
    started at index [i]; [n] bounds the iterations left.  The second test
    reads [this.packets[i]] again, after the first assignment. *)
Fixpoint toPublic_from (n i : nat) (h : Heap Packet) (ps : list loc)
    : list loc * Heap Packet :=
  match n with
  | O => (ps, h)
  | S n' =>
      match ps !! i with
      | None => (ps, h)
      | Some l =>
          let '(ps1, h1) :=
            if Z.eqb (tag (cell h l)) (secret_key E) then
              let bytes := writePublicKey (cell h l) in
              let '(pubKeyPacket, h') := alloc (read_public_key bytes) h in
              (<[i := pubKeyPacket]> ps, h')
            else (ps, h) in
          match ps1 !! i with
          | None => (ps1, h1)
          | Some l1 =>
              let '(ps2, h2) :=
                if Z.eqb (tag (cell h1 l1)) (secret_subkey E) then
                  let bytes := writePublicKey (cell h1 l1) in
                  let '(pubSubkeyPacket, h') :=
                    alloc (read_public_subkey bytes) h1 in
                  (<[i := pubSubkeyPacket]> ps1, h')
                else (ps1, h1) in
              toPublic_from n' (S i) h2 ps2
          end
      end
  end.

(** [toPublic] returns [this], whose list has been updated in place. *)
Definition toPublic (h : Heap Packet) (k : t) : t * Heap Packet :=
  let '(ps, h') := toPublic_from (length (packets k)) 0 h (packets k) in
  (mk ps, h').

(** [Array.prototype.indexOf], counting from [i]; [-1] when absent. *)
Fixpoint indexOf_from (i : Z) (xs : list string) (x : string) : Z :=
  match xs with
  | [] => (-1)%Z
  | y :: rest => if String.eqb y x then i else indexOf_from (i + 1)%Z rest x
  end.

Definition indexOf (xs : list string) (x : string) : Z := indexOf_from 0%Z xs x.

(** The array [signing] after the [map] through [enums.read]. *)
Definition signing : list string :=
  [rsa_encrypt_sign A; rsa_sign A; dsa A].

(** [getSigningKeyPacket]: the loop over [keys]; [keys[i].algorithm] on a
    [null] entry is a [TypeError]. *)
Fixpoint getSigningKeyPacket_from (h : Heap Packet) (keys : list (option loc))
    : result (option loc) :=
  match keys with
  | [] => Ok None
  | None :: _ => Throw TypeError
  | Some l :: rest =>
      if negb (Z.eqb (indexOf signing (algorithm (cell h l))) (-1))
      then Ok (Some l)
      else getSigningKeyPacket_from h rest
  end.

Definition getSigningKeyPacket (h : Heap Packet) (k : t) : result (option loc) :=
  getSigningKeyPacket_from h (getAllKeyPackets h k).

(** [isValidEncryptionKey(key)], for a [key] that is an object. *)
Definition isValidEncryptionKey (key : Packet) : bool :=
  negb (String.eqb (algorithm key) (dsa A))
  && negb (String.eqb (algorithm key) (rsa_sign A)).

(** [getEncryptionKeyPacket]: the loop over [subkeys]. *)
Fixpoint firstValidSubkey (h : Heap Packet) (subkeys : list loc) : option loc :=
  match subkeys with
  | [] => None
  | l :: rest =>
      if isValidEncryptionKey (cell h l) then Some l
      else firstValidSubkey h rest
  end.

(** [getEncryptionKeyPacket]: when no subkey is returned the primary key is
    tested; [primaryKey.algorithm] on [null] is a [TypeError]. *)
Definition getEncryptionKeyPacket (h : Heap Packet) (k : t)
    : result (option loc) :=
  let subkeys := getSubkeyPackets h k in
  match firstValidSubkey h subkeys with
  | Some l => Ok (Some l)
  | None =>
      match getKeyPacket h k with
      | None => Throw TypeError
      | Some primaryKey =>
          if isValidEncryptionKey (cell h primaryKey) then Ok (Some primaryKey)
          else Ok None
      end
  end.

(** [decrypt]: the loop over [keys]; each call changes the packet object
    it is made on. *)
Fixpoint decrypt_from (passphrase : string) (keys : list loc) (h : Heap Packet)
    : Heap Packet * bool :=
  match keys with
  | [] => (h, true)
  | l :: rest =>
      let '(p', success) := packet_decrypt passphrase (cell h l) in
      let h' := store l p' h in
      if negb success then (h', false)
      else decrypt_from passphrase rest h'
  end.

Definition decrypt (passphrase : string) (h : Heap Packet) (k : t)
    : Heap Packet * bool :=
  let keys :=
    filterByTag h [Some (secret_key E); Some (secret_subkey E)] (packets k) in
  decrypt_from passphrase keys h.

(** [armor]: the collaborators are [this.packets.write()], which
    serializes the packets of the list, and [armor.encode]. *)
Variable R : ArmorEnum.
Variable packetlist_write : Heap Packet -> list loc -> bytes.
Variable armor_encode : Z -> bytes -> string.

Definition armor (h : Heap Packet) (k : t) : string :=
  let type :=
    if isPublic h k then armor_public_key R else armor_private_key R in
  armor_encode type (packetlist_write h (packets k)).

(** [decryptKeyPacket]: the inner loop over [keyIds], for the key packet at
    [l] whose key id [keyId] was read before the loop. *)
Fixpoint decryptKeyPacket_ids (passphrase : string) (l : loc) (keyId : KeyId)
    (keyIds : list KeyId) (h : Heap Packet) : Heap Packet * bool :=
  match keyIds with
  | [] => (h, true)
  | c :: rest =>
      if keyid_equals keyId c then
        let '(p', success) := packet_decrypt passphrase (cell h l) in
        let h' := store l p' h in
        if negb success then (h', false)
        else decryptKeyPacket_ids passphrase l keyId rest h'
      else decryptKeyPacket_ids passphrase l keyId rest h
  end.

(** [decryptKeyPacket]: the outer loop over [keys]. *)
Fixpoint decryptKeyPacket_from (keyIds : list KeyId) (passphrase : string)
    (keys : list loc) (h : Heap Packet) : Heap Packet * bool :=
  match keys with
  | [] => (h, true)
  | l :: rest =>
      let keyId := getKeyId (cell h l) in
      let '(h', success) := decryptKeyPacket_ids passphrase l keyId keyIds h in
      if negb success then (h', false)
      else decryptKeyPacket_from keyIds passphrase rest h'
  end.

Definition decryptKeyPacket (keyIds : list KeyId) (passphrase : string)
    (h : Heap Packet) (k : t) : Heap Packet * bool :=
  let keys :=
    filterByTag h [Some (secret_key E); Some (secret_subkey E)] (packets k) in
  decryptKeyPacket_from keyIds passphrase keys h.
End Key.
End Key.

(** ** The Symmetrically Encrypted Data packet (Tag 9) *)

Module packet_symmetrically_encrypted.
Section Packet.
(** The collaborators: the packet list held in [this.packets], with its
    [read(bytes)] (which changes the list) and [write()]; the CFB cipher
    [crypto.cfb]; and [crypto.getPrefixRandom], which draws from a random
    source [Rng]. *)
Variable PacketList : Type.
Variable Rng : Type.
Variable packets_read : bytes -> PacketList -> result PacketList.
Variable packets_write : PacketList -> bytes.
Variable cfb_decrypt : Z -> bytes -> option bytes -> bool -> result bytes.
Variable cfb_encrypt : bytes -> Z -> bytes -> bytes -> bool -> result bytes.
Variable getPrefixRandom : Z -> Rng -> bytes * Rng.

(** [this.encrypted] starts as [null]; [this.packets] is [undefined] until
    the packet list that owns the packet assigns it. *)
Record t : Type := mk {
  encrypted : option bytes;
  packets : option PacketList
}.

Definition new : t := {| encrypted := None; packets := None |}.

Definition read (data : bytes) (c : t) : t :=
  {| encrypted := Some data; packets := packets c |}.

Definition write (c : t) : option bytes := encrypted c.

Definition decrypt (sessionKeyAlgorithm : Z) (key : bytes) (c : t) : result t :=
  decrypted ← cfb_decrypt sessionKeyAlgorithm key (encrypted c) true;
  match packets c with
  | None => Throw TypeError
  | Some pl =>
      pl' ← packets_read decrypted pl;
      Ok {| encrypted := encrypted c; packets := Some pl' |}
  end.

Definition encrypt (algo : Z) (key : bytes) (c : t) (g : Rng)
    : result (t * Rng) :=
  match packets c with
  | None => Throw TypeError
  | Some pl =>
      let data := packets_write pl in
      let '(prefix, g') := getPrefixRandom algo g in
      ct ← cfb_encrypt prefix algo data key true;
      Ok ({| encrypted := Some ct; packets := packets c |}, g')
  end.
End Packet.
Arguments mk {PacketList} encrypted packets.
Arguments encrypted {PacketList} c : rename.
Arguments packets {PacketList} c : rename.
Arguments new {PacketList}.
Arguments read {PacketList} data c.
Arguments write {PacketList} c.
Arguments decrypt {PacketList} packets_read cfb_decrypt sessionKeyAlgorithm key c.
Arguments encrypt {PacketList Rng} packets_write cfb_encrypt getPrefixRandom
  algo key c g.
End packet_symmetrically_encrypted.

(** ** Concrete collaborators, to run the operations on examples *)

Module Sample.
(** A key packet reduced to what [Key] looks at: tag, algorithm name, key
    id, and secret material locked under a passphrase. *)
Record KeyPacket : Type := mkKeyPacket {
  kp_tag : Z;
  kp_algorithm : string;
  kp_keyid : KeyId;
  kp_passphrase : string;
  kp_decrypted : bool
}.

(** The public portion is written as [algorithm/keyid]. *)
Fixpoint before_slash (s : string) : string :=
  match s with
  | EmptyString => EmptyString
  | String c rest =>
      if Ascii.eqb c "/"%char then EmptyString else String c (before_slash rest)
  end.

Fixpoint after_slash (s : string) : string :=
  match s with
  | EmptyString => EmptyString
  | String c rest => if Ascii.eqb c "/"%char then rest else after_slash rest
  end.

Definition public_of (tg : Z) (b : bytes) : KeyPacket :=
  {| kp_tag := tg;
     kp_algorithm := before_slash b;
     kp_keyid := after_slash b;
     kp_passphrase := EmptyString;
     kp_decrypted := false |}.

#[global] Instance KeyPacket_ops : PacketOps KeyPacket :=
  {| tag := kp_tag;
     algorithm := kp_algorithm;
     getKeyId := kp_keyid;
     writePublicKey := fun p => (kp_algorithm p ++ "/" ++ kp_keyid p)%string;
     packet_decrypt := fun passphrase p =>
       if String.eqb passphrase (kp_passphrase p)
       then ({| kp_tag := kp_tag p;
                kp_algorithm := kp_algorithm p;
                kp_keyid := kp_keyid p;
                kp_passphrase := kp_passphrase p;
                kp_decrypted := true |}, true)
       else (p, false);
     read_public_key := public_of (public_key rfc4880_packet);
     read_public_subkey := public_of (public_subkey rfc4880_packet) |}.

(** A user id packet (tag 13) carries no key. *)
Definition userid : KeyPacket :=
  {| kp_tag := 13; kp_algorithm := EmptyString; kp_keyid := EmptyString;
     kp_passphrase := EmptyString; kp_decrypted := false |}.

(** The store in which the objects [ps] sit at locations [0], [1], ... *)
Definition heap_of (ps : list KeyPacket) : Heap KeyPacket :=
  {| cell := fun l => nth l ps userid; next := length ps |}.

(** The key that owns them, in that order. *)
Definition key_of (ps : list KeyPacket) : Key.t :=
  Key.mk (seq 0 (length ps)).

Definition secret_packet (tg : Z) (alg : string) (id : KeyId) (pass : string)
    : KeyPacket :=
  {| kp_tag := tg; kp_algorithm := alg; kp_keyid := id;
     kp_passphrase := pass; kp_decrypted := false |}.

Definition public_packet (tg : Z) (alg : string) (id : KeyId) : KeyPacket :=
  {| kp_tag := tg; kp_algorithm := alg; kp_keyid := id;
     kp_passphrase := EmptyString; kp_decrypted := false |}.

(** A packet list that keeps each chunk it reads as one packet. *)
Definition chunks_read (data : bytes) (pl : list bytes) : result (list bytes) :=
  Ok (pl ++ [data]).

Definition chunks_write (pl : list bytes) : bytes :=
  fold_right String.append EmptyString pl.

(** Algorithm 0 of RFC 4880 section 9.2, plaintext: the cipher text is the
    data; reading [null] fails. *)
Definition plain_decrypt (algo : Z) (key : bytes) (ct : option bytes)
    (resync : bool) : result bytes :=
  match ct with
  | Some data => Ok data
  | None => Throw TypeError
  end.

Definition plain_encrypt (prefix : bytes) (algo : Z) (data key : bytes)
    (resync : bool) : result bytes :=
  Ok data.

(** A random source that hands out the bytes of a list in turn. *)
Definition next_prefix (algo : Z) (g : list bytes) : bytes * list bytes :=
  match g with
  | [] => (EmptyString, [])
  | p :: rest => (p, rest)
  end.

(** A private key that consists of one secret key packet. *)
Definition secret_only : list KeyPacket :=
  [secret_packet 5 "rsa_encrypt_sign" "A1B2C3D4E5F60718" "correct horse"].

(** A public key: primary key, user id, one subkey. *)
Definition public_key_block : list KeyPacket :=
  [public_packet 6 "rsa_sign" "A1B2C3D4E5F60718";
   userid;
   public_packet 14 "rsa_encrypt_sign" "0F1E2D3C4B5A6978"].

(** A private key whose subkeys are locked under another passphrase than
    the primary key. *)
Definition mixed_passphrases : list KeyPacket :=
  [secret_packet 5 "rsa_sign" "A1B2C3D4E5F60718" "first";
   userid;
   secret_packet 7 "rsa_encrypt_sign" "0F1E2D3C4B5A6978" "second";
   secret_packet 7 "elgamal" "1122334455667788" "first"].

(** A Symmetrically Encrypted Data packet as the packet list hands it
    over: an empty inner list, and the body read from the wire. *)
Definition received : packet_symmetrically_encrypted.t (list bytes) :=
  packet_symmetrically_encrypted.read "hello"
    {| packet_symmetrically_encrypted.encrypted := None;
       packet_symmetrically_encrypted.packets := Some [] |}.

(** One that holds a literal packet and has not been encrypted yet. *)
Definition composed : packet_symmetrically_encrypted.t (list bytes) :=
  {| packet_symmetrically_encrypted.encrypted := None;
     packet_symmetrically_encrypted.packets := Some ["literal"%string] |}.


(** A private key with a primary key that can only sign and one subkey. *)
Definition sign_and_encrypt : list KeyPacket :=
  [secret_packet 5 "rsa_sign" "A1B2C3D4E5F60718" "first";
   secret_packet 7 "rsa_encrypt_sign" "0F1E2D3C4B5A6978" "first"].

(** A key that consists of a DSA primary key. *)
Definition dsa_only : list KeyPacket :=
  [public_packet 6 "dsa" "A1B2C3D4E5F60718"].

(** A packet list without a primary key packet: a user id and a subkey. *)
Definition subkey_only : list KeyPacket :=
  [userid; public_packet 14 "rsa_encrypt_sign" "0F1E2D3C4B5A6978"].

(** A packet list without a primary key packet whose subkey is a DSA key,
    and the empty packet list. *)
Definition dsa_subkey_only : list KeyPacket :=
  [userid; public_packet 14 "dsa" "0F1E2D3C4B5A6978"].

Definition no_packets : list KeyPacket := [].

(** Armor types, a serialization that lists the key ids, and an encoding
    that prefixes the body with the kind of block. *)
Definition armor_types : ArmorEnum :=
  {| armor_public_key := 4; armor_private_key := 5 |}.

Definition write_key_ids (h : Heap KeyPacket) (ps : list loc) : bytes :=
  fold_right (fun l body => (kp_keyid (cell h l) ++ ";" ++ body)%string)
    EmptyString ps.

Definition encode_block (type : Z) (body : bytes) : string :=
  ((if Z.eqb type 4 then "PUBLIC KEY BLOCK " else "PRIVATE KEY BLOCK ")
   ++ body)%string.
End Sample.

(** ** Vocabulary of the properties *)

(** [x] is the first element of [xs] that satisfies [P]. *)
Definition first_such {X : Type} (P : X -> Prop) (xs : list X) (x : X) : Prop :=
  exists pre post, xs = pre ++ x :: post /\ P x /\ forall y, In y pre -> ~ P y.

(** The store after [decrypt(passphrase)] has been called on the packet
    object at [l], and the answer of that call. *)
Definition call_decrypt {Packet : Type} `{PacketOps Packet}
    (passphrase : string) (h : Heap Packet) (l : loc) : Heap Packet :=
  store l (fst (packet_decrypt passphrase (cell h l))) h.

Definition call_succeeds {Packet : Type} `{PacketOps Packet}
    (passphrase : string) (h : Heap Packet) (l : loc) : bool :=
  snd (packet_decrypt passphrase (cell h l)).

(** The store after the calls on [ls], made one after the other. *)
Definition calls_in_order {Packet : Type} `{PacketOps Packet}
    (passphrase : string) (ls : list loc) (h : Heap Packet) : Heap Packet :=
  fold_left (call_decrypt passphrase) ls h.

(** Each call on [ls] succeeds in the store its predecessors left. *)
Definition all_succeed {Packet : Type} `{PacketOps Packet}
    (passphrase : string) (ls : list loc) (h : Heap Packet) : Prop :=
  forall i l, ls !! i = Some l ->
    call_succeeds passphrase (calls_in_order passphrase (take i ls) h) l = true.

(** The packet carries one of the two secret tags. *)
Definition is_secret {Packet : Type} `{PacketOps Packet} (E : PacketEnum)
    (p : Packet) : Prop :=
  tag p = secret_key E \/ tag p = secret_subkey E.

(** The packet that stands, after [toPublic], where the packet [p] stood. *)
Definition as_public {Packet : Type} `{PacketOps Packet} (E : PacketEnum)
    (p : Packet) : Packet :=
  if Z.eqb (tag p) (secret_key E) then read_public_key (writePublicKey p)
  else if Z.eqb (tag p) (secret_subkey E)
       then read_public_subkey (writePublicKey p)
       else p.

(** One pass over the list that rebuilds it slot by slot: the reference of
    a secret packet gives way to a fresh public packet, any other
    reference is kept. *)
Fixpoint publicize {Packet : Type} `{PacketOps Packet} (E : PacketEnum)
    (h : Heap Packet) (ps : list loc) : list loc * Heap Packet :=
  match ps with
  | [] => ([], h)
  | l :: rest =>
      let '(l', h1) :=
        if Z.eqb (tag (cell h l)) (secret_key E)
           || Z.eqb (tag (cell h l)) (secret_subkey E)
        then alloc (as_public E (cell h l)) h
        else (l, h) in
      let '(rest', h2) := publicize E h1 rest in
      (l' :: rest', h2)
  end.

(** The packet at [l] is a primary key packet, a subkey packet. *)
Definition is_primary {Packet : Type} `{PacketOps Packet} (E : PacketEnum)
    (h : Heap Packet) (l : loc) : Prop :=
  tag (cell h l) = public_key E \/ tag (cell h l) = secret_key E.


Definition subkey_test {Packet : Type} `{PacketOps Packet} (E : PacketEnum)
    (h : Heap Packet) (l : loc) : bool :=
  Z.eqb (tag (cell h l)) (public_subkey E)
  || Z.eqb (tag (cell h l)) (secret_subkey E).

(** The algorithm of the packet at [l] can sign; can encrypt. *)
Definition signing_capable {Packet : Type} `{PacketOps Packet}
    (A : PublicKeyNames) (h : Heap Packet) (l : loc) : Prop :=
  algorithm (cell h l) = rsa_encrypt_sign A \/
  algorithm (cell h l) = rsa_sign A \/
  algorithm (cell h l) = dsa A.

Definition encryption_capable {Packet : Type} `{PacketOps Packet}
    (A : PublicKeyNames) (h : Heap Packet) (l : loc) : Prop :=
  algorithm (cell h l) <> dsa A /\ algorithm (cell h l) <> rsa_sign A.

(** The two states of the data model of an encrypted container, and what
    it means for a packet object to be in one: [Opaque] when it holds these
    bytes as its cipher text, [Decoded] when it holds this inner stream. *)
Inductive ContainerState (PacketList : Type) : Type :=
| Opaque (data : bytes)
| Decoded (stream : PacketList).
Arguments Opaque {PacketList} data.
Arguments Decoded {PacketList} stream.

Definition in_state {PacketList : Type}
    (c : packet_symmetrically_encrypted.t PacketList)
    (s : ContainerState PacketList) : Prop :=
  match s with
  | Opaque data => packet_symmetrically_encrypted.encrypted c = Some data
  | Decoded stream => packet_symmetrically_encrypted.packets c = Some stream
  end.

(** How often [keyId] is listed in [keyIds]. *)
Definition occurrences (keyId : KeyId) (keyIds : list KeyId) : nat :=
  length (List.filter (keyid_equals keyId) keyIds).

(** The key packets [keys], each repeated once per listing of its key id in
    [keyIds]. *)
Definition listed_calls {Packet : Type} `{PacketOps Packet}
    (keyIds : list KeyId) (h : Heap Packet) (keys : list loc) : list loc :=
  flat_map (fun l => repeat l (occurrences (getKeyId (cell h l)) keyIds)) keys.

(** The packets' own [decrypt] leaves the key id as it is. *)
Definition decrypt_keeps_key_id {Packet : Type} `{PacketOps Packet} : Prop :=
  forall passphrase p, getKeyId (packet_decrypt passphrase p).1 = getKeyId p.

(** For the packets of the list, the public packet that is written and
    read back has the key id of the packet it comes from. *)
Definition public_part_keeps_key_id {Packet : Type} `{PacketOps Packet}
    (E : PacketEnum) (h : Heap Packet) (ps : list loc) : Prop :=
  forall l, In l ps -> getKeyId (as_public E (cell h l)) = getKeyId (cell h l).

(** * Properties *)

Lemma Ok_inj {X : Type} (a b : X) : Ok a = Ok b -> a = b.
Proof. now intros [= ->]. Qed.

(** ** The packet list and the store *)

Section PacketListFacts.
Context {Packet : Type} `{PacketOps Packet}.
Implicit Types (h : Heap Packet) (ps : list loc) (l : loc).

Lemma existsb_tag_matches t packetTypes :
  existsb (tag_matches t) packetTypes = true <-> In (Some t) packetTypes.
Proof.
  rewrite existsb_exists. split.
  - intros ([n|] & Hin & Hm); simpl in Hm; [|discriminate].
    apply Z.eqb_eq in Hm. now subst.
  - intros Hin. exists (Some t). split; [assumption|]. simpl. apply Z.eqb_refl.
Qed.

Lemma filterByTag_In h packetTypes ps l :
  In l (filterByTag h packetTypes ps) <->
  In l ps /\ In (Some (tag (cell h l))) packetTypes.
Proof.
  unfold filterByTag. rewrite filter_In, existsb_tag_matches. reflexivity.
Qed.


Lemma filterByTag_none h packetTypes ps :
  (forall l, In l ps -> ~ In (Some (tag (cell h l))) packetTypes) ->
  filterByTag h packetTypes ps = [].
Proof.
  intros Hno. unfold filterByTag. induction ps as [|l ps IH]; simpl; [reflexivity|].
  destruct (existsb _ _) eqn:Hex.
  - apply existsb_tag_matches in Hex. exfalso. apply (Hno l); simpl; auto.
  - apply IH. intros l' Hl'. apply Hno. simpl; auto.
Qed.

Lemma length_nonzero {X : Type} (xs : list X) :
  negb (Nat.eqb (length xs) 0) = true <-> exists x, In x xs.
Proof.
  destruct xs as [|x xs]; simpl; split.
  - discriminate.
  - intros (x & []).
  - intros _. exists x. auto.
  - reflexivity.
Qed.
End PacketListFacts.

(** ** Role of a key *)

Section RoleFacts.
Context {Packet : Type} `{PacketOps Packet}.
Variable E : PacketEnum.
Implicit Types (h : Heap Packet) (k : Key.t).

Lemma isPublic_true_iff h k :
  Key.isPublic E h k = true <->
  exists l, In l (Key.packets k) /\ tag (cell h l) = public_key E.
Proof.
  unfold Key.isPublic. rewrite length_nonzero. split.
  - intros (l & Hl). apply filterByTag_In in Hl as (Hin & [Heq|[]]).
    exists l. split; [assumption|congruence].
  - intros (l & Hin & Ht). exists l. apply filterByTag_In. split; [assumption|].
    left. now rewrite Ht.
Qed.



End RoleFacts.

(** ** Searching a list from the front *)

Section FindFacts.
Context {X : Type}.

Lemma find_first_such (f : X -> bool) (xs : list X) (x : X) :
  find f xs = Some x <-> first_such (fun y => f y = true) xs x.
Proof.
  split.
  - induction xs as [|y xs IH]; simpl; [discriminate|].
    destruct (f y) eqn:Hy.
    + intros [= ->]. exists [], xs. repeat split; auto; intros ? [].
    + intros Hfind. destruct (IH Hfind) as (pre & post & -> & Hx & Hpre).
      exists (y :: pre), post. repeat split; auto.
      intros z [<-|Hz]; [congruence|auto].
  - intros (pre & post & -> & Hx & Hpre).
    induction pre as [|y pre IH]; simpl.
    + now rewrite Hx.
    + destruct (f y) eqn:Hy.
      * exfalso. apply (Hpre y); simpl; auto.
      * apply IH. intros z Hz. apply Hpre. simpl; auto.
Qed.

Lemma find_none_iff (f : X -> bool) (xs : list X) :
  find f xs = None <-> forall y, In y xs -> f y = false.
Proof.
  split.
  - apply find_none.
  - induction xs as [|y xs IH]; simpl; [reflexivity|].
    intros Hall. rewrite (Hall y) by auto. apply IH. auto.
Qed.

Lemma first_such_ext (P Q : X -> Prop) (xs : list X) (x : X) :
  (forall y, P y <-> Q y) -> first_such P xs x <-> first_such Q xs x.
Proof.
  intros HPQ. unfold first_such.
  split; intros (pre & post & Hxs & Hx & Hpre); exists pre, post;
    (split; [assumption|]); (split; [now apply HPQ|]);
    intros y Hy HQ; apply (Hpre y Hy); now apply HPQ.
Qed.
End FindFacts.

(** ** Lookup by key id *)

Section FindKeyFacts.
Context {Packet : Type} `{PacketOps Packet}.
Variable E : PacketEnum.
Implicit Types (h : Heap Packet) (k : Key.t) (keyIds : list KeyId).

Lemma findKey_matches_In (keyId : KeyId) keyIds :
  Key.findKey_matches keyId keyIds = true <-> In keyId keyIds.
Proof.
  induction keyIds as [|c rest IH]; simpl.
  - split; [discriminate|tauto].
  - unfold keyid_equals. destruct (String.eqb keyId c) eqn:Heq.
    + apply String.eqb_eq in Heq. subst. tauto.
    + apply String.eqb_neq in Heq. rewrite IH. split; [tauto|].
      intros [Hc|Hin]; [congruence|assumption].
Qed.

Lemma findKey_find h keys keyIds :
  Key.findKey h keys keyIds =
  find (fun l => Key.findKey_matches (getKeyId (cell h l)) keyIds) keys.
Proof. induction keys as [|l rest IH]; simpl; [reflexivity|]. now rewrite IH. Qed.

Lemma findKey_Some h keys keyIds l :
  Key.findKey h keys keyIds = Some l <->
  first_such (fun x => In (getKeyId (cell h x)) keyIds) keys l.
Proof.
  rewrite findKey_find, find_first_such. apply first_such_ext.
  intros y. apply findKey_matches_In.
Qed.

Lemma findKey_None h keys keyIds :
  Key.findKey h keys keyIds = None <->
  forall x, In x keys -> ~ In (getKeyId (cell h x)) keyIds.
Proof.
  rewrite findKey_find, find_none_iff.
  split; intros Hall x Hx; specialize (Hall x Hx).
  - rewrite <- findKey_matches_In. congruence.
  - rewrite <- findKey_matches_In in Hall. now destruct (Key.findKey_matches _ _).
Qed.

Lemma findKey_no_candidates h keys : Key.findKey h keys [] = None.
Proof. apply findKey_None. intros x _ []. Qed.

Lemma filterByTag_two h (a b : Z) ps :
  filterByTag h [Some a; Some b] ps =
  List.filter
    (fun l => Z.eqb (tag (cell h l)) a || Z.eqb (tag (cell h l)) b) ps.
Proof.
  unfold filterByTag. apply filter_ext. intros l. simpl.
  now rewrite orb_false_r.
Qed.
End FindKeyFacts.

Section FindByKeyIds.
Context {Packet : Type} `{PacketOps Packet}.
Variable E : PacketEnum.
Implicit Types (h : Heap Packet) (k : Key.t) (keyIds : list KeyId).

(** C6: [getPublicKeyPacket] and [getPrivateKeyPacket] keep the owned
    packets whose tag has the requested role (public_key / public_subkey,
    or secret_key / secret_subkey) and return the first of them, in stream
    order, whose key id is one of the candidates; they return [null] for
    an empty candidate list, and exactly when no packet of the role has a
    key id among the candidates. *)
Theorem findByKeyIds_first_match h k keyIds :
  let of_role a b :=
    List.filter
      (fun l => Z.eqb (tag (cell h l)) a || Z.eqb (tag (cell h l)) b)
      (Key.packets k) in
  let candidate l := In (getKeyId (cell h l)) keyIds in
  (forall l, Key.getPublicKeyPacket E h k keyIds = Some l <->
             first_such candidate (of_role (public_key E) (public_subkey E)) l)
  /\ (forall l, Key.getPrivateKeyPacket E h k keyIds = Some l <->
                first_such candidate (of_role (secret_key E) (secret_subkey E)) l)
  /\ (Key.getPublicKeyPacket E h k keyIds = None <->
      forall l, In l (of_role (public_key E) (public_subkey E)) -> ~ candidate l)
  /\ (Key.getPrivateKeyPacket E h k keyIds = None <->
      forall l, In l (of_role (secret_key E) (secret_subkey E)) -> ~ candidate l)
  /\ Key.getPublicKeyPacket E h k [] = None
  /\ Key.getPrivateKeyPacket E h k [] = None.
Proof.
  intros of_role candidate. subst of_role candidate.
  unfold Key.getPublicKeyPacket, Key.getPrivateKeyPacket.
  rewrite !filterByTag_two.
  split; [intros l; apply findKey_Some|].
  split; [intros l; apply findKey_Some|].
  split; [apply findKey_None|].
  split; [apply findKey_None|].
  split; apply findKey_no_candidates.
Qed.
End FindByKeyIds.

Section DecryptPublic.
Context {Packet : Type} `{PacketOps Packet}.
Variable E : PacketEnum.

(** C10: on a key that owns no packet tagged secret_key or secret_subkey,
    [decrypt(passphrase)] returns [true] for every passphrase and leaves
    every packet object as it was. *)
Theorem decrypt_without_secret_packets (passphrase : string)
    (h : Heap Packet) (k : Key.t) :
  (forall l, In l (Key.packets k) ->
     tag (cell h l) <> secret_key E /\ tag (cell h l) <> secret_subkey E) ->
  Key.decrypt E passphrase h k = (h, true).
Proof.
  intros Hpub. unfold Key.decrypt.
  rewrite filterByTag_none; [reflexivity|].
  intros l Hl [Hk|[Hs|[]]]; destruct (Hpub l Hl); congruence.
Qed.
End DecryptPublic.

(** The public key block of the examples decrypts under any passphrase,
    here a wrong guess, without a change to the store. *)
Lemma decrypt_without_secret_packets_witness :
  Key.decrypt rfc4880_packet "guess"
    (Sample.heap_of Sample.public_key_block)
    (Sample.key_of Sample.public_key_block)
  = (Sample.heap_of Sample.public_key_block, true).
Proof.
  apply decrypt_without_secret_packets.
  intros l Hl. simpl in Hl.
  destruct Hl as [<-|[<-|[<-|[]]]]; simpl; split; discriminate.
Defined.

Section PrivateRole.
Context {Packet : Type} `{PacketOps Packet}.
Variable E : PacketEnum.
Implicit Types (h : Heap Packet) (k : Key.t).

End PrivateRole.


(** ** Passphrase decryption of a key *)

Section DecryptFacts.
Context {Packet : Type} `{PacketOps Packet}.
Variable E : PacketEnum.
Implicit Types (h : Heap Packet) (k : Key.t) (passphrase : string).

Lemma decrypt_from_cons passphrase l rest h :
  Key.decrypt_from passphrase (l :: rest) h =
  if call_succeeds passphrase h l
  then Key.decrypt_from passphrase rest (call_decrypt passphrase h l)
  else (call_decrypt passphrase h l, false).
Proof.
  unfold call_succeeds, call_decrypt. simpl.
  destruct (packet_decrypt passphrase (cell h l)) as [p' [|]]; reflexivity.
Qed.

Lemma all_succeed_nil passphrase h : all_succeed passphrase [] h.
Proof. intros i l Hl. destruct i; discriminate. Qed.

Lemma all_succeed_cons passphrase l rest h :
  all_succeed passphrase (l :: rest) h <->
  call_succeeds passphrase h l = true /\
  all_succeed passphrase rest (call_decrypt passphrase h l).
Proof.
  split.
  - intros Hall. split.
    + apply (Hall 0 l). reflexivity.
    + intros i x Hx. apply (Hall (S i) x). exact Hx.
  - intros [Hl Hrest] [|i] x Hx.
    + injection Hx as <-. exact Hl.
    + apply (Hrest i x). exact Hx.
Qed.

Lemma decrypt_from_all_succeed passphrase keys h :
  all_succeed passphrase keys h ->
  Key.decrypt_from passphrase keys h = (calls_in_order passphrase keys h, true).
Proof.
  revert h. induction keys as [|l rest IH]; intros h Hall; [reflexivity|].
  apply all_succeed_cons in Hall as [Hl Hrest].
  rewrite decrypt_from_cons, Hl. apply IH, Hrest.
Qed.

Lemma decrypt_from_first_failure passphrase before l after h :
  all_succeed passphrase before h ->
  call_succeeds passphrase (calls_in_order passphrase before h) l = false ->
  Key.decrypt_from passphrase (before ++ l :: after) h =
  (calls_in_order passphrase (before ++ [l]) h, false).
Proof.
  revert h. induction before as [|x before IH]; intros h Hall Hfail.
  - change (calls_in_order passphrase [] h) with h in Hfail.
    change ([] ++ l :: after) with (l :: after).
    rewrite decrypt_from_cons, Hfail. reflexivity.
  - apply all_succeed_cons in Hall as [Hx Hrest].
    change ((x :: before) ++ l :: after) with (x :: (before ++ l :: after)).
    rewrite decrypt_from_cons, Hx. apply IH; assumption.
Qed.

Lemma decrypt_from_true passphrase keys h :
  snd (Key.decrypt_from passphrase keys h) = true ->
  all_succeed passphrase keys h.
Proof.
  revert h. induction keys as [|l rest IH]; intros h Htrue.
  - apply all_succeed_nil.
  - rewrite decrypt_from_cons in Htrue. apply all_succeed_cons.
    destruct (call_succeeds passphrase h l); [|discriminate]. auto.
Qed.

Lemma calls_in_order_elsewhere passphrase ls h x :
  ~ In x ls -> cell (calls_in_order passphrase ls h) x = cell h x.
Proof.
  revert h. induction ls as [|l ls IH]; intros h Hx; [reflexivity|].
  unfold calls_in_order in *. simpl. rewrite IH by (simpl in Hx; tauto).
  unfold call_decrypt. simpl.
  destruct (Nat.eqb x l) eqn:Heq; [|reflexivity].
  apply Nat.eqb_eq in Heq. subst. exfalso. apply Hx. simpl; auto.
Qed.

Lemma calls_in_order_once passphrase ls h x :
  List.NoDup ls -> In x ls ->
  cell (calls_in_order passphrase ls h) x
  = fst (packet_decrypt passphrase (cell h x)).
Proof.
  revert h. induction ls as [|l ls IH]; intros h Hnd Hx; [destruct Hx|].
  apply NoDup_cons_iff in Hnd as [Hl Hnd].
  change (calls_in_order passphrase (l :: ls) h)
    with (calls_in_order passphrase ls (call_decrypt passphrase h l)).
  destruct Hx as [->|Hx].
  - rewrite calls_in_order_elsewhere by assumption.
    unfold call_decrypt. simpl. now rewrite Nat.eqb_refl.
  - rewrite IH by assumption. unfold call_decrypt. simpl.
    destruct (Nat.eqb x l) eqn:Heq; [|reflexivity].
    apply Nat.eqb_eq in Heq. subst. contradiction.
Qed.

(** C3: [decrypt(passphrase)] calls the packets' own [decrypt(passphrase)]
    on the packets tagged secret_key or secret_subkey, in stream order.
    When every call succeeds it returns [true] after all of them.  At the
    first call that fails it stops and returns [false]: the packets before
    the failing one keep what their calls did to them (no rollback), and
    no packet after it is touched.  It returns [true] only when every call
    succeeded. *)
Theorem decrypt_stops_at_first_failure passphrase h k :
  let keys :=
    List.filter
      (fun l => Z.eqb (tag (cell h l)) (secret_key E)
                || Z.eqb (tag (cell h l)) (secret_subkey E))
      (Key.packets k) in
  (all_succeed passphrase keys h ->
   Key.decrypt E passphrase h k = (calls_in_order passphrase keys h, true))
  /\ (forall before l after,
        keys = before ++ l :: after ->
        all_succeed passphrase before h ->
        call_succeeds passphrase (calls_in_order passphrase before h) l = false ->
        let h' := calls_in_order passphrase (before ++ [l]) h in
        Key.decrypt E passphrase h k = (h', false)
        /\ (List.NoDup (before ++ [l]) -> forall x, In x before ->
            cell h' x = fst (packet_decrypt passphrase (cell h x)))
        /\ (forall x, ~ In x (before ++ [l]) -> cell h' x = cell h x))
  /\ (snd (Key.decrypt E passphrase h k) = true ->
      all_succeed passphrase keys h).
Proof.
  intros keys. unfold Key.decrypt. rewrite filterByTag_two. fold keys.
  split; [apply decrypt_from_all_succeed|].
  split; [|apply decrypt_from_true].
  intros before l after Hkeys Hall Hfail. rewrite Hkeys.
  split; [now apply decrypt_from_first_failure|].
  split.
  - intros Hnd x Hx. apply calls_in_order_once; [assumption|].
    apply in_or_app. now left.
  - intros x Hx. apply calls_in_order_elsewhere, Hx.
Qed.
End DecryptFacts.

(** ** Conversion to a public key *)

Section ToPublicFacts.
Context {Packet : Type} `{PacketOps Packet}.
Variable E : PacketEnum.
Hypothesis Hdistinct : key_tags_distinct E.
Hypothesis Htagged : constructors_tagged E.
Implicit Types (h : Heap Packet) (k : Key.t) (ps : list loc) (p : Packet).

Lemma tags_apart :
  public_key E <> secret_key E /\ public_key E <> secret_subkey E /\
  public_subkey E <> secret_key E /\ public_subkey E <> secret_subkey E /\
  secret_key E <> secret_subkey E.
Proof.
  unfold key_tags_distinct in Hdistinct.
  repeat match goal with
         | Hnd : List.NoDup (_ :: _) |- _ =>
             apply NoDup_cons_iff in Hnd as [? Hnd]
         end.
  simpl in *. repeat split; intros Heq; rewrite Heq in *; tauto.
Qed.

Lemma as_public_not_secret p : ~ is_secret E (as_public E p).
Proof.
  destruct Htagged as [Hpk Hpsk].
  destruct tags_apart as (? & ? & ? & ? & ?).
  unfold as_public, is_secret.
  destruct (Z.eqb (tag p) (secret_key E)) eqn:Hsk.
  - rewrite Hpk. tauto.
  - destruct (Z.eqb (tag p) (secret_subkey E)) eqn:Hssk.
    + rewrite Hpsk. tauto.
    + apply Z.eqb_neq in Hsk, Hssk. tauto.
Qed.

Lemma as_public_id p : ~ is_secret E p -> as_public E p = p.
Proof.
  unfold is_secret, as_public. intros Hns.
  destruct (Z.eqb_spec (tag p) (secret_key E)); [tauto|].
  destruct (Z.eqb_spec (tag p) (secret_subkey E)); [tauto|]. reflexivity.
Qed.

Lemma secret_test p :
  Z.eqb (tag p) (secret_key E) || Z.eqb (tag p) (secret_subkey E) = true
  <-> is_secret E p.
Proof. unfold is_secret. rewrite orb_true_iff, !Z.eqb_eq. reflexivity. Qed.

Lemma as_public_secret_key p :
  tag p = secret_key E -> as_public E p = read_public_key (writePublicKey p).
Proof. intros Ht. unfold as_public. now rewrite Ht, Z.eqb_refl. Qed.

Lemma as_public_secret_subkey p :
  tag p = secret_subkey E ->
  as_public E p = read_public_subkey (writePublicKey p).
Proof.
  intros Ht. unfold as_public. rewrite Ht, Z.eqb_refl.
  destruct tags_apart as (_ & _ & _ & _ & Hne).
  destruct (Z.eqb_spec (secret_subkey E) (secret_key E)); [congruence|].
  reflexivity.
Qed.

(** The loop of [toPublic], started at the slot after [done], does to the
    rest of the list what [publicize] does. *)
Lemma toPublic_from_publicize ps : forall done h n,
  length ps <= n ->
  Key.toPublic_from E n (length done) h (done ++ ps) =
  (done ++ (publicize E h ps).1, (publicize E h ps).2).
Proof.
  destruct Htagged as [Hpk Hpsk].
  destruct tags_apart as (Hpk_sk & Hpk_ssk & Hpsk_sk & Hpsk_ssk & Hsk_ssk).
  induction ps as [|l rest IH]; intros done h n Hn.
  - destruct n as [|n]; simpl; [reflexivity|].
    rewrite lookup_ge_None_2 by (rewrite length_app; simpl; lia). reflexivity.
  - destruct n as [|n]; [simpl in Hn; lia|]. simpl in Hn.
    assert (Hnext : forall l' h',
      Key.toPublic_from E n (S (length done)) h' (done ++ l' :: rest) =
      (done ++ l' :: (publicize E h' rest).1, (publicize E h' rest).2)).
    { intros l' h'. specialize (IH (done ++ [l']) h' n).
      rewrite length_app, <- app_assoc in IH. simpl in IH.
      rewrite Nat.add_1_r in IH. rewrite IH by lia.
      now rewrite <- app_assoc. }
    cbn [Key.toPublic_from publicize].
    rewrite list_lookup_middle by reflexivity.
    destruct (Z.eqb_spec (tag (cell h l)) (secret_key E)) as [Hsk|Hsk].
    + rewrite (as_public_secret_key _ Hsk). cbn [orb alloc].
      rewrite insert_app_r_alt, Nat.sub_diag by lia. cbn [insert list_insert].
      rewrite list_lookup_middle by reflexivity. cbn [cell].
      rewrite Nat.eqb_refl, Hpk.
      destruct (Z.eqb_spec (public_key E) (secret_subkey E)); [congruence|].
      rewrite Hnext. now destruct (publicize E _ rest).
    + rewrite list_lookup_middle by reflexivity. cbn [orb].
      destruct (Z.eqb_spec (tag (cell h l)) (secret_subkey E)) as [Hssk|Hssk].
      * rewrite (as_public_secret_subkey _ Hssk). cbn [alloc].
        rewrite insert_app_r_alt, Nat.sub_diag by lia. cbn [insert list_insert].
        rewrite Hnext. now destruct (publicize E _ rest).
      * rewrite Hnext. now destruct (publicize E _ rest).
Qed.

Lemma toPublic_publicize h k :
  Key.toPublic E h k =
  (Key.mk (publicize E h (Key.packets k)).1, (publicize E h (Key.packets k)).2).
Proof.
  unfold Key.toPublic.
  rewrite (toPublic_from_publicize (Key.packets k) [] h) by lia. reflexivity.
Qed.

Lemma publicize_length ps : forall h,
  length (publicize E h ps).1 = length ps.
Proof.
  induction ps as [|l rest IH]; intros h; [reflexivity|].
  cbn [publicize].
  destruct (_ || _); [cbn [alloc]|];
    match goal with |- context [publicize E ?h' rest] =>
      specialize (IH h'); destruct (publicize E h' rest) end;
    simpl in *; now rewrite IH.
Qed.

(** Objects that existed before the pass are left as they were. *)
Lemma publicize_old_objects ps : forall h,
  next h <= next (publicize E h ps).2 /\
  forall l, l < next h -> cell (publicize E h ps).2 l = cell h l.
Proof.
  induction ps as [|x rest IH]; intros h; [split; [simpl; lia|reflexivity]|].
  cbn [publicize].
  destruct (_ || _).
  - cbn [alloc].
    match goal with |- context [publicize E ?h' rest] =>
      destruct (IH h') as [Hle Hsame];
      destruct (publicize E h' rest) as [rest' h2] end.
    simpl in *. split; [lia|]. intros l Hl. rewrite Hsame by lia.
    destruct (Nat.eqb_spec l (next h)); [lia|reflexivity].
  - destruct (IH h) as [Hle Hsame].
    destruct (publicize E h rest) as [rest' h2]. simpl in *. auto.
Qed.

(** Slot by slot: the new list holds, where [l] stood, a reference to the
    public counterpart of the packet at [l]; the reference itself is kept
    unless the packet is secret. *)
Lemma publicize_slots ps : forall h i l,
  allocated h ps ->
  ps !! i = Some l ->
  exists l', (publicize E h ps).1 !! i = Some l' /\
    cell (publicize E h ps).2 l' = as_public E (cell h l) /\
    (~ is_secret E (cell h l) -> l' = l).
Proof.
  induction ps as [|x rest IH]; intros h i l Halloc Hl; [discriminate|].
  apply Forall_cons in Halloc as [Hx Hrest].
  cbn [publicize].
  destruct (_ || _) eqn:Hsec.
  - cbn [alloc].
    set (h1 := {| cell := _; next := S (next h) |}).
    assert (Hrest1 : allocated h1 rest).
    { eapply Forall_impl; [exact Hrest|]. simpl. lia. }
    pose proof (publicize_old_objects rest h1) as [Hle Hsame].
    specialize (IH h1). destruct (publicize E h1 rest) as [rest' h2].
    simpl in *. destruct i as [|i].
    + injection Hl as ->. exists (next h). split; [reflexivity|].
      rewrite Hsame by lia. rewrite Nat.eqb_refl. split; [reflexivity|].
      intros Hns. apply secret_test in Hsec. contradiction.
    + destruct (IH i l Hrest1 Hl) as (l' & Hl' & Hcell & Hkeep).
      assert (l < next h).
      { apply (Forall_lookup_1 _ _ i l Hrest Hl). }
      destruct (Nat.eqb_spec l (next h)); [lia|].
      exists l'. auto.
  - pose proof (publicize_old_objects rest h) as [Hle Hsame].
    specialize (IH h). destruct (publicize E h rest) as [rest' h2].
    simpl in *. destruct i as [|i].
    + injection Hl as ->. exists l. split; [reflexivity|].
      rewrite Hsame by lia. split; [|reflexivity].
      symmetry. apply as_public_id. rewrite <- secret_test. congruence.
    + apply (IH i l Hrest Hl).
Qed.

Lemma publicize_no_secret ps : forall h,
  (forall l, In l ps -> ~ is_secret E (cell h l)) ->
  publicize E h ps = (ps, h).
Proof.
  induction ps as [|x rest IH]; intros h Hns; [reflexivity|].
  cbn [publicize].
  destruct (_ || _) eqn:Hsec.
  - apply secret_test in Hsec. exfalso. apply (Hns x); simpl; auto.
  - rewrite IH; [reflexivity|]. intros l Hl. apply Hns. simpl; auto.
Qed.

(** C7: [toPublic()] keeps the length of the packet list; in every slot
    it puts the public_key / public_subkey packet derived from a packet
    tagged secret_key / secret_subkey and keeps any other packet, object
    and content, where it was; afterwards no owned packet carries a secret
    tag, and a second [toPublic()] changes nothing. *)
Theorem toPublic_replaces_secret_packets h k :
  allocated h (Key.packets k) ->
  let k' := (Key.toPublic E h k).1 in
  let h' := (Key.toPublic E h k).2 in
  length (Key.packets k') = length (Key.packets k)
  /\ (forall i l, Key.packets k !! i = Some l ->
        exists l', Key.packets k' !! i = Some l' /\
          cell h' l' = as_public E (cell h l) /\
          (~ is_secret E (cell h l) -> l' = l /\ cell h' l = cell h l))
  /\ (forall l', In l' (Key.packets k') -> ~ is_secret E (cell h' l'))
  /\ Key.toPublic E h' k' = (k', h').
Proof.
  intros Halloc k' h'. subst k' h'. rewrite toPublic_publicize. cbn [fst snd Key.packets].
  assert (Hslots := fun i l => publicize_slots (Key.packets k) h i l Halloc).
  assert (Hlen := publicize_length (Key.packets k) h).
  assert (Hclean : forall l',
    In l' (publicize E h (Key.packets k)).1 ->
    ~ is_secret E (cell (publicize E h (Key.packets k)).2 l')).
  { intros l' Hin.
    apply list_elem_of_In, list_elem_of_lookup_1 in Hin as [i Hi].
    destruct (lookup_lt_is_Some_2 (Key.packets k) i) as [l Hl].
    { rewrite <- Hlen. eapply lookup_lt_Some, Hi. }
    destruct (Hslots i l Hl) as (l'' & Hl'' & Hcell & _).
    assert (l'' = l') by congruence. subst l''.
    rewrite Hcell. apply as_public_not_secret. }
  split; [exact Hlen|]. split; [|split; [exact Hclean|]].
  - intros i l Hl. destruct (Hslots i l Hl) as (l' & Hl' & Hcell & Hkeep).
    exists l'. split; [assumption|]. split; [assumption|].
    intros Hns. specialize (Hkeep Hns). subst l'. split; [reflexivity|].
    rewrite Hcell. now apply as_public_id.
  - rewrite toPublic_publicize. cbn [Key.packets].
    rewrite publicize_no_secret by exact Hclean. reflexivity.
Qed.
End ToPublicFacts.

(** ** Selection of key packets *)

Section SelectionFacts.
Context {Packet : Type} `{PacketOps Packet}.
Variable E : PacketEnum.
Variable A : PublicKeyNames.
Implicit Types (h : Heap Packet) (k : Key.t) (l : loc).

Lemma getKeyPacket_from_find h ps :
  Key.getKeyPacket_from E h ps =
  find (fun l => Z.eqb (tag (cell h l)) (public_key E)
                 || Z.eqb (tag (cell h l)) (secret_key E)) ps.
Proof. induction ps as [|l rest IH]; simpl; [reflexivity|]. now rewrite IH. Qed.

Lemma getKeyPacket_Some h k l :
  Key.getKeyPacket E h k = Some l <-> first_such (is_primary E h) (Key.packets k) l.
Proof.
  unfold Key.getKeyPacket. rewrite getKeyPacket_from_find, find_first_such.
  apply first_such_ext. intros y. unfold is_primary.
  rewrite orb_true_iff, !Z.eqb_eq. reflexivity.
Qed.

Lemma getKeyPacket_None h k :
  Key.getKeyPacket E h k = None <->
  forall l, In l (Key.packets k) -> ~ is_primary E h l.
Proof.
  unfold Key.getKeyPacket. rewrite getKeyPacket_from_find, find_none_iff.
  unfold is_primary.
  split; intros Hall l Hl; specialize (Hall l Hl).
  - apply orb_false_iff in Hall as [Hp Hs].
    apply Z.eqb_neq in Hp, Hs. tauto.
  - apply orb_false_iff. rewrite !Z.eqb_neq. tauto.
Qed.

Lemma getSubkeyPackets_from_filter h ps : forall subkeys,
  Key.getSubkeyPackets_from E h ps subkeys =
  subkeys ++ List.filter (subkey_test E h) ps.
Proof.
  induction ps as [|l rest IH]; intros subkeys; simpl.
  - now rewrite app_nil_r.
  - unfold subkey_test at 1. destruct (_ || _); rewrite IH; [|reflexivity].
    now rewrite <- app_assoc.
Qed.

Lemma getSubkeyPackets_filter h k :
  Key.getSubkeyPackets E h k = List.filter (subkey_test E h) (Key.packets k).
Proof. unfold Key.getSubkeyPackets. now rewrite getSubkeyPackets_from_filter. Qed.

Lemma indexOf_from_absent (xs : list string) (x : string) : forall i,
  (0 <= i)%Z ->
  (Key.indexOf_from i xs x = -1)%Z <-> ~ In x xs.
Proof.
  induction xs as [|y rest IH]; intros i Hi; simpl.
  - tauto.
  - destruct (String.eqb_spec y x) as [->|Hne].
    + split; [lia|tauto].
    + rewrite IH by lia. tauto.
Qed.

Lemma signing_test h l :
  negb (Z.eqb (Key.indexOf (Key.signing A) (algorithm (cell h l))) (-1)) = true
  <-> signing_capable A h l.
Proof.
  rewrite negb_true_iff, Z.eqb_neq. unfold Key.indexOf.
  rewrite indexOf_from_absent by lia. unfold Key.signing, signing_capable.
  simpl. destruct (string_dec (algorithm (cell h l)) (rsa_encrypt_sign A));
    destruct (string_dec (algorithm (cell h l)) (rsa_sign A));
    destruct (string_dec (algorithm (cell h l)) (dsa A));
    split; intros; try tauto; intuition congruence.
Qed.

Lemma getSigningKeyPacket_from_find h (keys : list loc) :
  Key.getSigningKeyPacket_from A h (map Some keys) =
  Ok (find (fun l => negb (Z.eqb (Key.indexOf (Key.signing A)
                                    (algorithm (cell h l))) (-1))) keys).
Proof.
  induction keys as [|l rest IH]; simpl; [reflexivity|].
  destruct (negb _); [reflexivity|exact IH].
Qed.

Lemma isValidEncryptionKey_true h l :
  Key.isValidEncryptionKey A (cell h l) = true <-> encryption_capable A h l.
Proof.
  unfold Key.isValidEncryptionKey, encryption_capable.
  rewrite andb_true_iff, !negb_true_iff, !String.eqb_neq. reflexivity.
Qed.

Lemma firstValidSubkey_find h subkeys :
  Key.firstValidSubkey A h subkeys =
  find (fun l => Key.isValidEncryptionKey A (cell h l)) subkeys.
Proof. induction subkeys as [|l rest IH]; simpl; [reflexivity|]. now rewrite IH. Qed.

Lemma getAllKeyPackets_with_primary h k primary :
  first_such (is_primary E h) (Key.packets k) primary ->
  Key.getAllKeyPackets E h k =
  map Some (primary :: List.filter (subkey_test E h) (Key.packets k)).
Proof.
  intros Hp. apply getKeyPacket_Some in Hp.
  unfold Key.getAllKeyPackets. now rewrite Hp, getSubkeyPackets_filter.
Qed.
End SelectionFacts.

Section SelectionClaims.
Context {Packet : Type} `{PacketOps Packet}.
Variable E : PacketEnum.
Variable A : PublicKeyNames.
Implicit Types (h : Heap Packet) (k : Key.t) (l : loc).

(** C5, as the code has it: for a key with primary key packet [primary],
    [getAllKeyPackets] lists the primary key and then the subkeys in
    stream order, and [getSigningKeyPacket] returns the first packet of
    that list whose algorithm is RSA-encrypt-sign, RSA-sign or DSA, and
    [null] exactly when no packet of the list has such an algorithm; in
    particular a primary key of algorithm RSA-sign is returned, whatever
    the subkeys are.  For a key without a primary key packet it raises a
    [TypeError], whatever the subkeys are. *)
Theorem getSigningKeyPacket_first_capable h k :
  (forall primary,
     first_such (is_primary E h) (Key.packets k) primary ->
     let keys := primary :: List.filter (subkey_test E h) (Key.packets k) in
     Key.getAllKeyPackets E h k = map Some keys
     /\ (forall l, Key.getSigningKeyPacket E A h k = Ok (Some l) <->
                   first_such (signing_capable A h) keys l)
     /\ (Key.getSigningKeyPacket E A h k = Ok None <->
         forall l, In l keys -> ~ signing_capable A h l)
     /\ (algorithm (cell h primary) = rsa_sign A ->
         Key.getSigningKeyPacket E A h k = Ok (Some primary)))
  /\ ((forall l, In l (Key.packets k) -> ~ is_primary E h l) ->
      Key.getSigningKeyPacket E A h k = Throw TypeError).
Proof.
  split.
  - intros primary Hp keys.
    pose proof (getAllKeyPackets_with_primary E h k primary Hp) as Hall.
    fold keys in Hall. unfold Key.getSigningKeyPacket. rewrite Hall.
    rewrite getSigningKeyPacket_from_find.
    assert (Hsome : forall l,
      Ok (find (fun l => negb (Z.eqb (Key.indexOf (Key.signing A)
                                        (algorithm (cell h l))) (-1))) keys)
      = Ok (Some l) <-> first_such (signing_capable A h) keys l).
    { intros l. split.
      - intros Hfind. apply Ok_inj, find_first_such in Hfind.
        now apply (first_such_ext _ _ keys l (signing_test A h)).
      - intros Hfirst. f_equal. apply find_first_such.
        now apply (first_such_ext _ _ keys l (signing_test A h)). }
    split; [reflexivity|]. split; [exact Hsome|]. split.
    + split.
      * intros Hnone l Hl Hcap. apply Ok_inj in Hnone.
        apply signing_test in Hcap.
        rewrite (proj1 (find_none_iff _ _) Hnone l Hl) in Hcap. discriminate.
      * intros Hnone. f_equal. apply find_none_iff. intros l Hl.
        specialize (Hnone l Hl). rewrite <- signing_test in Hnone.
        now destruct (negb _).
    + intros Halg. apply Hsome.
      exists [], (List.filter (subkey_test E h) (Key.packets k)).
      split; [reflexivity|]. split; [|intros ? []].
      unfold signing_capable. auto.
  - intros Hno. apply getKeyPacket_None in Hno.
    unfold Key.getSigningKeyPacket, Key.getAllKeyPackets.
    rewrite Hno. reflexivity.
Qed.

(** C4, as the code has it: [getEncryptionKeyPacket] returns the first
    subkey packet, in stream order, whose algorithm is neither DSA nor
    RSA-sign.  When no subkey qualifies and the key has a primary key
    packet, it returns the primary key packet if that passes the same test
    and [null] if it does not; so a key with a DSA primary key and no
    subkey yields [null].  When no subkey qualifies and the key has no
    primary key packet, it raises a [TypeError]. *)
Theorem getEncryptionKeyPacket_prefers_subkeys h k :
  let subkeys := List.filter (subkey_test E h) (Key.packets k) in
  (forall s, first_such (encryption_capable A h) subkeys s ->
     Key.getEncryptionKeyPacket E A h k = Ok (Some s))
  /\ (forall primary,
        (forall s, In s subkeys -> ~ encryption_capable A h s) ->
        first_such (is_primary E h) (Key.packets k) primary ->
        (encryption_capable A h primary ->
         Key.getEncryptionKeyPacket E A h k = Ok (Some primary))
        /\ (~ encryption_capable A h primary ->
            Key.getEncryptionKeyPacket E A h k = Ok None))
  /\ (forall primary,
        subkeys = [] ->
        first_such (is_primary E h) (Key.packets k) primary ->
        algorithm (cell h primary) = dsa A ->
        Key.getEncryptionKeyPacket E A h k = Ok None)
  /\ ((forall s, In s subkeys -> ~ encryption_capable A h s) ->
      (forall l, In l (Key.packets k) -> ~ is_primary E h l) ->
      Key.getEncryptionKeyPacket E A h k = Throw TypeError).
Proof.
  intros subkeys. unfold Key.getEncryptionKeyPacket.
  rewrite getSubkeyPackets_filter, firstValidSubkey_find. fold subkeys.
  assert (Hfallback : forall primary,
    (forall s, In s subkeys -> ~ encryption_capable A h s) ->
    first_such (is_primary E h) (Key.packets k) primary ->
    match find (fun l => Key.isValidEncryptionKey A (cell h l)) subkeys with
    | Some l => Ok (Some l)
    | None =>
        match Key.getKeyPacket E h k with
        | Some primaryKey =>
            if Key.isValidEncryptionKey A (cell h primaryKey)
            then Ok (Some primaryKey) else Ok None
        | None => Throw TypeError
        end
    end
    = if Key.isValidEncryptionKey A (cell h primary)
      then Ok (Some primary) else Ok None).
  { intros primary Hnone Hp. apply getKeyPacket_Some in Hp. rewrite Hp.
    replace (find _ subkeys) with (@None loc); [reflexivity|].
    symmetry. apply find_none_iff. intros s Hs. specialize (Hnone s Hs).
    rewrite <- isValidEncryptionKey_true in Hnone.
    now destruct (Key.isValidEncryptionKey A (cell h s)). }
  split; [|split; [|split]].
  - intros s Hs.
    rewrite <- (first_such_ext _ _ subkeys s (isValidEncryptionKey_true A h)) in Hs.
    apply find_first_such in Hs. now rewrite Hs.
  - intros primary Hnone Hp. rewrite (Hfallback primary Hnone Hp).
    split; intros Hv; rewrite <- isValidEncryptionKey_true in Hv.
    + now rewrite Hv.
    + now destruct (Key.isValidEncryptionKey A (cell h primary)).
  - intros primary Hempty Hp Hdsa. rewrite (Hfallback primary); [| |exact Hp].
    + unfold Key.isValidEncryptionKey. rewrite Hdsa, String.eqb_refl.
      reflexivity.
    + rewrite Hempty. intros s [].
  - intros Hnone Hno. apply getKeyPacket_None in Hno. rewrite Hno.
    replace (find _ subkeys) with (@None loc); [reflexivity|].
    symmetry. apply find_none_iff. intros s Hs. specialize (Hnone s Hs).
    rewrite <- isValidEncryptionKey_true in Hnone.
    now destruct (Key.isValidEncryptionKey A (cell h s)).
Qed.

(** C8, as the code has it: on a key without a primary key packet
    [getAllKeyPackets] does not fail, but its result starts with [null],
    followed by the subkey packets; [getKeyIds] and [getSigningKeyPacket],
    which read that list entry by entry, raise a [TypeError] at the [null]
    entry. *)
Theorem getKeyIds_without_primary h k :
  (forall l, In l (Key.packets k) -> ~ is_primary E h l) ->
  Key.getAllKeyPackets E h k =
    None :: map Some (List.filter (subkey_test E h) (Key.packets k))
  /\ Key.getKeyIds E h k = Throw TypeError
  /\ Key.getSigningKeyPacket E A h k = Throw TypeError.
Proof.
  intros Hno. apply getKeyPacket_None in Hno.
  unfold Key.getKeyIds, Key.getSigningKeyPacket, Key.getAllKeyPackets.
  rewrite Hno, getSubkeyPackets_filter. auto.
Qed.
End SelectionClaims.

(** ** The Symmetrically Encrypted Data packet *)

Section ContainerFacts.
Import packet_symmetrically_encrypted.
Variable PacketList : Type.
Variable Rng : Type.
Variable packets_read : bytes -> PacketList -> result PacketList.
Variable packets_write : PacketList -> bytes.
Variable cfb_decrypt : Z -> bytes -> option bytes -> bool -> result bytes.
Variable cfb_encrypt : bytes -> Z -> bytes -> bytes -> bool -> result bytes.
Variable getPrefixRandom : Z -> Rng -> bytes * Rng.

Local Abbreviation decrypt := (decrypt packets_read cfb_decrypt).
Local Abbreviation encrypt :=
  (encrypt packets_write cfb_encrypt getPrefixRandom).

Lemma decrypt_Ok algorithm key (c c' : t PacketList) :
  decrypt algorithm key c = Ok c' <->
  exists decrypted pl pl',
    cfb_decrypt algorithm key (encrypted c) true = Ok decrypted /\
    packets c = Some pl /\
    packets_read decrypted pl = Ok pl' /\
    c' = {| encrypted := encrypted c; packets := Some pl' |}.
Proof.
  unfold packet_symmetrically_encrypted.decrypt, mbind, result_bind.
  split.
  - destruct (cfb_decrypt _ _ _ _) as [decrypted|] eqn:Hc; [|discriminate].
    destruct (packets c) as [pl|] eqn:Hpl; [|discriminate].
    destruct (packets_read decrypted pl) as [pl'|] eqn:Hr; [|discriminate].
    intros Heq. apply Ok_inj in Heq. subst c'. exists decrypted, pl, pl'.
    auto.
  - intros (decrypted & pl & pl' & -> & -> & -> & ->). reflexivity.
Qed.

Lemma encrypt_Ok algo key (c c' : t PacketList) (g g' : Rng) :
  encrypt algo key c g = Ok (c', g') <->
  exists pl ct,
    packets c = Some pl /\
    cfb_encrypt (getPrefixRandom algo g).1 algo (packets_write pl) key true
      = Ok ct /\
    c' = {| encrypted := Some ct; packets := packets c |} /\
    g' = (getPrefixRandom algo g).2.
Proof.
  unfold packet_symmetrically_encrypted.encrypt, mbind, result_bind.
  split.
  - destruct (packets c) as [pl|] eqn:Hpl; [|discriminate].
    destruct (getPrefixRandom algo g) as [prefix g1]. simpl.
    destruct (cfb_encrypt _ _ _ _ _) as [ct|] eqn:Hct; [|discriminate].
    intros Heq. apply Ok_inj in Heq. injection Heq as <- <-.
    exists pl, ct. auto.
  - intros (pl & ct & Hpl & Hct & -> & ->). rewrite Hpl.
    destruct (getPrefixRandom algo g) as [prefix g1]. simpl in *.
    now rewrite Hct.
Qed.

(** C2, as the code has it: the packet keeps its cipher text and its
    inner packet list in two fields.  A successful [decrypt] hands the
    CFB-decrypted bytes to [read] of the inner list and leaves the cipher
    text where it was; a successful [encrypt] stores the CFB encryption of
    the serialized inner list as the cipher text and leaves the inner list
    where it was. *)
Theorem decrypt_encrypt_keep_other_field :
  (forall algorithm key (c c' : t PacketList),
     decrypt algorithm key c = Ok c' ->
     encrypted c' = encrypted c /\
     exists decrypted pl pl',
       cfb_decrypt algorithm key (encrypted c) true = Ok decrypted /\
       packets c = Some pl /\
       packets_read decrypted pl = Ok pl' /\
       in_state c' (Decoded pl'))
  /\ (forall algo key (c c' : t PacketList) (g g' : Rng),
        encrypt algo key c g = Ok (c', g') ->
        packets c' = packets c /\
        exists pl ct,
          packets c = Some pl /\
          cfb_encrypt (getPrefixRandom algo g).1 algo (packets_write pl) key true
            = Ok ct /\
          in_state c' (Opaque ct)).
Proof.
  split.
  - intros algorithm key c c' Hd.
    apply decrypt_Ok in Hd as (decrypted & pl & pl' & Hc & Hpl & Hr & ->).
    split; [reflexivity|]. exists decrypted, pl, pl'. simpl. auto.
  - intros algo key c c' g g' He.
    apply encrypt_Ok in He as (pl & ct & Hpl & Hct & -> & _).
    split; [reflexivity|]. exists pl, ct. simpl. auto.
Qed.

End ContainerFacts.

(** * The operations on sample keys and packets *)

Lemma rfc4880_tags_distinct : key_tags_distinct rfc4880_packet.
Proof.
  unfold key_tags_distinct. simpl.
  repeat (apply List.NoDup_cons; [simpl; intuition discriminate|]).
  apply List.NoDup_nil.
Defined.

Lemma sample_constructors_tagged :
  constructors_tagged (Packet := Sample.KeyPacket) rfc4880_packet.
Proof. split; reflexivity. Defined.

Lemma first_such_head {X : Type} (P : X -> Prop) (x : X) (xs : list X) :
  P x -> first_such P (x :: xs) x.
Proof.
  intros Hx. exists [], xs. split; [reflexivity|]. split; [exact Hx|].
  intros y [].
Defined.

(** With the passphrase of the primary key, the call on the primary key
    succeeds and the call on the first subkey fails: the result is [false],
    the primary key stays decrypted, and the second subkey, which the
    passphrase would have opened, has not been touched. *)
Lemma decrypt_stops_at_first_failure_witness :
  Key.decrypt rfc4880_packet "first"
    (Sample.heap_of Sample.mixed_passphrases)
    (Sample.key_of Sample.mixed_passphrases)
  = (calls_in_order "first" [0; 2] (Sample.heap_of Sample.mixed_passphrases),
     false)
  /\ Sample.kp_decrypted
       (cell (calls_in_order "first" [0; 2]
                (Sample.heap_of Sample.mixed_passphrases)) 0) = true
  /\ Sample.kp_decrypted
       (cell (calls_in_order "first" [0; 2]
                (Sample.heap_of Sample.mixed_passphrases)) 3) = false.
Proof.
  destruct (decrypt_stops_at_first_failure rfc4880_packet "first"
              (Sample.heap_of Sample.mixed_passphrases)
              (Sample.key_of Sample.mixed_passphrases))
    as (_ & Hfail & _).
  destruct (Hfail [0] 2 [3]) as (Hresult & _ & _).
  - reflexivity.
  - intros [|i] l Hl; [|destruct i; discriminate].
    injection Hl as <-. reflexivity.
  - reflexivity.
  - split; [exact Hresult|]. split; reflexivity.
Defined.

(** The sample key of four packets: afterwards no packet is secret; the
    user id keeps its reference and the three key packets are new
    objects, each in the slot of the packet it replaces. *)
Lemma toPublic_replaces_secret_packets_witness :
  (forall l',
     In l' (Key.packets
              (Key.toPublic rfc4880_packet
                 (Sample.heap_of Sample.mixed_passphrases)
                 (Sample.key_of Sample.mixed_passphrases)).1) ->
     ~ is_secret rfc4880_packet
         (cell (Key.toPublic rfc4880_packet
                  (Sample.heap_of Sample.mixed_passphrases)
                  (Sample.key_of Sample.mixed_passphrases)).2 l'))
  /\ Key.packets
       (Key.toPublic rfc4880_packet
          (Sample.heap_of Sample.mixed_passphrases)
          (Sample.key_of Sample.mixed_passphrases)).1 = [4; 1; 5; 6].
Proof.
  destruct (toPublic_replaces_secret_packets rfc4880_packet
              rfc4880_tags_distinct sample_constructors_tagged
              (Sample.heap_of Sample.mixed_passphrases)
              (Sample.key_of Sample.mixed_passphrases))
    as (_ & _ & Hclean & _).
  - repeat constructor.
  - split; [exact Hclean|reflexivity].
Defined.

(** The scenario of a primary key that can only sign and a subkey that can
    do both: the primary key is the signing key. *)
Lemma getSigningKeyPacket_first_capable_witness :
  Key.getSigningKeyPacket rfc4880_packet rfc4880_publicKey
    (Sample.heap_of Sample.sign_and_encrypt)
    (Sample.key_of Sample.sign_and_encrypt) = Ok (Some 0).
Proof.
  destruct (proj1 (getSigningKeyPacket_first_capable
                     rfc4880_packet rfc4880_publicKey
                     (Sample.heap_of Sample.sign_and_encrypt)
                     (Sample.key_of Sample.sign_and_encrypt)) 0)
    as (_ & _ & _ & Hprimary).
  - apply first_such_head. right. reflexivity.
  - apply Hprimary. reflexivity.
Defined.

(** C5, as stated, fails on a packet list that holds a user id and a
    subkey of algorithm RSA-encrypt-sign: the subkey is the first packet
    of the list of all key packets that can sign, yet the call ends in
    the [TypeError] of reading [null].  On the empty packet list, where no
    key packet can sign, the call ends in the same [TypeError] instead of
    [null]. *)
Lemma getSigningKeyPacket_throws_without_primary :
  Key.getAllKeyPackets rfc4880_packet
    (Sample.heap_of Sample.subkey_only) (Sample.key_of Sample.subkey_only)
  = [None; Some 1]
  /\ signing_capable rfc4880_publicKey (Sample.heap_of Sample.subkey_only) 1
  /\ Key.getSigningKeyPacket rfc4880_packet rfc4880_publicKey
       (Sample.heap_of Sample.subkey_only) (Sample.key_of Sample.subkey_only)
     = Throw TypeError
  /\ Key.getSigningKeyPacket rfc4880_packet rfc4880_publicKey
       (Sample.heap_of Sample.subkey_only) (Sample.key_of Sample.subkey_only)
     <> Ok (Some 1)
  /\ Key.getSigningKeyPacket rfc4880_packet rfc4880_publicKey
       (Sample.heap_of Sample.no_packets) (Sample.key_of Sample.no_packets)
     = Throw TypeError
  /\ Key.getSigningKeyPacket rfc4880_packet rfc4880_publicKey
       (Sample.heap_of Sample.no_packets) (Sample.key_of Sample.no_packets)
     <> Ok None.
Proof.
  split; [reflexivity|]. split; [left; reflexivity|].
  split; [reflexivity|]. split; [discriminate|].
  split; [reflexivity|discriminate].
Qed.

(** The same key: the subkey is the encryption key.  A key that is one DSA
    primary key has none. *)
Lemma getEncryptionKeyPacket_prefers_subkeys_witness :
  Key.getEncryptionKeyPacket rfc4880_packet rfc4880_publicKey
    (Sample.heap_of Sample.sign_and_encrypt)
    (Sample.key_of Sample.sign_and_encrypt) = Ok (Some 1)
  /\ Key.getEncryptionKeyPacket rfc4880_packet rfc4880_publicKey
       (Sample.heap_of Sample.dsa_only)
       (Sample.key_of Sample.dsa_only) = Ok None.
Proof.
  split.
  - apply (proj1 (getEncryptionKeyPacket_prefers_subkeys rfc4880_packet
                    rfc4880_publicKey
                    (Sample.heap_of Sample.sign_and_encrypt)
                    (Sample.key_of Sample.sign_and_encrypt))).
    apply first_such_head. split; discriminate.
  - apply (proj1 (proj2 (proj2 (getEncryptionKeyPacket_prefers_subkeys
                                  rfc4880_packet rfc4880_publicKey
                                  (Sample.heap_of Sample.dsa_only)
                                  (Sample.key_of Sample.dsa_only)))) 0).
    + reflexivity.
    + apply first_such_head. left. reflexivity.
    + reflexivity.
Defined.

(** C4, as stated, fails on a packet list that holds a user id and a DSA
    subkey, and on the empty packet list: no subkey qualifies and there
    is no primary key packet, and the call ends in the [TypeError] of
    reading [null] instead of [null]. *)
Lemma getEncryptionKeyPacket_throws_without_primary :
  Key.getKeyPacket rfc4880_packet
    (Sample.heap_of Sample.dsa_subkey_only)
    (Sample.key_of Sample.dsa_subkey_only) = None
  /\ Key.getEncryptionKeyPacket rfc4880_packet rfc4880_publicKey
       (Sample.heap_of Sample.dsa_subkey_only)
       (Sample.key_of Sample.dsa_subkey_only) = Throw TypeError
  /\ Key.getEncryptionKeyPacket rfc4880_packet rfc4880_publicKey
       (Sample.heap_of Sample.dsa_subkey_only)
       (Sample.key_of Sample.dsa_subkey_only) <> Ok None
  /\ Key.getEncryptionKeyPacket rfc4880_packet rfc4880_publicKey
       (Sample.heap_of Sample.no_packets) (Sample.key_of Sample.no_packets)
     = Throw TypeError
  /\ Key.getEncryptionKeyPacket rfc4880_packet rfc4880_publicKey
       (Sample.heap_of Sample.no_packets) (Sample.key_of Sample.no_packets)
     <> Ok None.
Proof.
  split; [reflexivity|]. split; [reflexivity|]. split; [discriminate|].
  split; [reflexivity|discriminate].
Qed.

(** C8, as stated, fails on a packet list that holds a user id and a
    subkey: there is no primary key packet, the list of all key packets
    starts with [null], and [getKeyIds] ends in the [TypeError] of a call
    on [null] instead of the key id of the subkey. *)
Lemma getKeyIds_crashes_without_primary :
  Key.getKeyPacket rfc4880_packet
    (Sample.heap_of Sample.subkey_only) (Sample.key_of Sample.subkey_only)
  = None
  /\ Key.getAllKeyPackets rfc4880_packet
       (Sample.heap_of Sample.subkey_only) (Sample.key_of Sample.subkey_only)
     = [None; Some 1]
  /\ Key.getKeyIds rfc4880_packet
       (Sample.heap_of Sample.subkey_only) (Sample.key_of Sample.subkey_only)
     = Throw TypeError
  /\ Key.getKeyIds rfc4880_packet
       (Sample.heap_of Sample.subkey_only) (Sample.key_of Sample.subkey_only)
     <> Ok ["0F1E2D3C4B5A6978"%string].
Proof. repeat split; [reflexivity..|discriminate]. Qed.

Lemma getKeyIds_without_primary_witness :
  Key.getAllKeyPackets rfc4880_packet
    (Sample.heap_of Sample.subkey_only) (Sample.key_of Sample.subkey_only)
  = [None; Some 1]
  /\ Key.getKeyIds rfc4880_packet
       (Sample.heap_of Sample.subkey_only) (Sample.key_of Sample.subkey_only)
     = Throw TypeError
  /\ Key.getSigningKeyPacket rfc4880_packet rfc4880_publicKey
       (Sample.heap_of Sample.subkey_only) (Sample.key_of Sample.subkey_only)
     = Throw TypeError.
Proof.
  assert (Hno : forall l,
    In l (Key.packets (Sample.key_of Sample.subkey_only)) ->
    ~ is_primary rfc4880_packet (Sample.heap_of Sample.subkey_only) l).
  { intros l [<-|[<-|[]]] [Hp|Hs]; discriminate. }
  exact (getKeyIds_without_primary rfc4880_packet rfc4880_publicKey
           (Sample.heap_of Sample.subkey_only)
           (Sample.key_of Sample.subkey_only) Hno).
Defined.

(** C2, as stated, fails on a packet read from the wire and then
    decrypted: after the successful [decrypt] it holds the decoded inner
    list, and it still holds the cipher text, so it is in both states at
    once.  A packet just constructed is in neither. *)
Lemma container_holds_both_states :
  (exists c',
     packet_symmetrically_encrypted.decrypt
       Sample.chunks_read Sample.plain_decrypt 0%Z "key" Sample.received
     = Ok c'
     /\ in_state Sample.received (Opaque "hello")
     /\ in_state c' (Decoded ["hello"%string])
     /\ in_state c' (Opaque "hello"))
  /\ (forall s : ContainerState (list bytes),
        ~ in_state packet_symmetrically_encrypted.new s).
Proof.
  split.
  - eexists. repeat split; reflexivity.
  - intros [data|stream]; discriminate.
Qed.

Lemma decrypt_encrypt_keep_other_field_witness :
  (forall c',
     packet_symmetrically_encrypted.decrypt
       Sample.chunks_read Sample.plain_decrypt 0%Z "key" Sample.received
     = Ok c' ->
     packet_symmetrically_encrypted.encrypted c' = Some "hello"%string)
  /\ (forall c' g',
        packet_symmetrically_encrypted.encrypt
          Sample.chunks_write Sample.plain_encrypt Sample.next_prefix
          0%Z "key" Sample.composed ["prefix"%string]
        = Ok (c', g') ->
        packet_symmetrically_encrypted.packets c'
        = Some ["literal"%string]).
Proof.
  destruct (decrypt_encrypt_keep_other_field (list bytes) (list bytes)
              Sample.chunks_read Sample.chunks_write
              Sample.plain_decrypt Sample.plain_encrypt Sample.next_prefix)
    as [Hdecrypt Hencrypt].
  split.
  - intros c' Hd. apply Hdecrypt in Hd as [Hkeep _]. exact Hkeep.
  - intros c' g' He. apply Hencrypt in He as [Hkeep _]. exact Hkeep.
Defined.


(** ** Further runs *)

Example getPublicKeyPacket_finds_subkey :
  Key.getPublicKeyPacket rfc4880_packet
    (Sample.heap_of Sample.public_key_block)
    (Sample.key_of Sample.public_key_block)
    ["FFFFFFFFFFFFFFFF"%string; "0F1E2D3C4B5A6978"%string] = Some 2.
Proof. reflexivity. Qed.

Example getPublicKeyPacket_first_in_stream_order :
  Key.getPublicKeyPacket rfc4880_packet
    (Sample.heap_of Sample.public_key_block)
    (Sample.key_of Sample.public_key_block)
    ["0F1E2D3C4B5A6978"%string; "A1B2C3D4E5F60718"%string] = Some 0.
Proof. reflexivity. Qed.

Example getPrivateKeyPacket_of_public_key :
  Key.getPrivateKeyPacket rfc4880_packet
    (Sample.heap_of Sample.public_key_block)
    (Sample.key_of Sample.public_key_block)
    ["A1B2C3D4E5F60718"%string] = None.
Proof. reflexivity. Qed.

Example isPublic_of_public_key :
  Key.isPublic rfc4880_packet
    (Sample.heap_of Sample.public_key_block)
    (Sample.key_of Sample.public_key_block) = true.
Proof. reflexivity. Qed.

Example getKeyIds_of_public_key :
  Key.getKeyIds rfc4880_packet
    (Sample.heap_of Sample.public_key_block)
    (Sample.key_of Sample.public_key_block)
  = Ok ["A1B2C3D4E5F60718"%string; "0F1E2D3C4B5A6978"%string].
Proof. reflexivity. Qed.

Example toPublic_tags :
  map (fun l => tag (cell (Key.toPublic rfc4880_packet
                             (Sample.heap_of Sample.mixed_passphrases)
                             (Sample.key_of Sample.mixed_passphrases)).2 l))
      (Key.packets (Key.toPublic rfc4880_packet
                      (Sample.heap_of Sample.mixed_passphrases)
                      (Sample.key_of Sample.mixed_passphrases)).1)
  = [6%Z; 13%Z; 14%Z; 14%Z].
Proof. reflexivity. Qed.

Example toPublic_keeps_key_ids :
  Key.getKeyIds rfc4880_packet
    (Key.toPublic rfc4880_packet
       (Sample.heap_of Sample.mixed_passphrases)
       (Sample.key_of Sample.mixed_passphrases)).2
    (Key.toPublic rfc4880_packet
       (Sample.heap_of Sample.mixed_passphrases)
       (Sample.key_of Sample.mixed_passphrases)).1
  = Key.getKeyIds rfc4880_packet
      (Sample.heap_of Sample.mixed_passphrases)
      (Sample.key_of Sample.mixed_passphrases).
Proof. reflexivity. Qed.

Example decrypt_with_the_passphrase :
  (Key.decrypt rfc4880_packet "first"
     (Sample.heap_of Sample.sign_and_encrypt)
     (Sample.key_of Sample.sign_and_encrypt)).2 = true
  /\ (Key.decrypt rfc4880_packet "wrong-passphrase"
        (Sample.heap_of Sample.sign_and_encrypt)
        (Sample.key_of Sample.sign_and_encrypt)).2 = false.
Proof. split; reflexivity. Qed.

(** * Further properties of the [Key] class *)

(** ** Primary key, subkeys and key ids *)

Section KeyPacketLists.
Context {Packet : Type} `{PacketOps Packet}.
Variable E : PacketEnum.
Variable A : PublicKeyNames.
Implicit Types (h : Heap Packet) (k : Key.t) (l : loc).

Lemma subkey_test_true h l :
  subkey_test E h l = true <->
  tag (cell h l) = public_subkey E \/ tag (cell h l) = secret_subkey E.
Proof. unfold subkey_test. rewrite orb_true_iff, !Z.eqb_eq. reflexivity. Qed.

Lemma getKeyIds_from_map h (ls : list loc) : forall keyIds,
  Key.getKeyIds_from h (map Some ls) keyIds =
  Ok (keyIds ++ map (fun l => getKeyId (cell h l)) ls).
Proof.
  induction ls as [|l rest IH]; intros keyIds; simpl.
  - now rewrite app_nil_r.
  - rewrite IH, <- app_assoc. reflexivity.
Qed.

Lemma no_primary_or_first h k :
  (forall l, In l (Key.packets k) -> ~ is_primary E h l) \/
  exists primary, first_such (is_primary E h) (Key.packets k) primary.
Proof.
  destruct (Key.getKeyPacket E h k) as [primary|] eqn:Hp.
  - right. exists primary. now apply getKeyPacket_Some.
  - left. now apply getKeyPacket_None.
Qed.

(** X1: [getKeyPacket] returns the first packet of the list, in stream order,
    that is tagged public_key or secret_key (a later packet with such a tag
    is never returned), and [null] exactly when no packet has such a tag. *)
Theorem getKeyPacket_first_primary h k :
  (forall l, Key.getKeyPacket E h k = Some l <->
     exists before after,
       Key.packets k = before ++ l :: after /\
       is_primary E h l /\
       forall x, In x before -> ~ is_primary E h x)
  /\ (Key.getKeyPacket E h k = None <->
      forall l, In l (Key.packets k) -> ~ is_primary E h l).
Proof.
  split.
  - intros l. rewrite getKeyPacket_Some. reflexivity.
  - apply getKeyPacket_None.
Qed.

(** X2: [getSubkeyPackets] returns the packets tagged public_subkey or
    secret_subkey, each as often as it occurs and in stream order, and no
    other packet; the result refers to the packet objects of the key. *)
Theorem getSubkeyPackets_stream_order h k :
  Key.getSubkeyPackets E h k = List.filter (subkey_test E h) (Key.packets k)
  /\ (forall l, In l (Key.getSubkeyPackets E h k) <->
        In l (Key.packets k) /\
        (tag (cell h l) = public_subkey E \/ tag (cell h l) = secret_subkey E))
  /\ length (Key.getSubkeyPackets E h k) <= length (Key.packets k).
Proof.
  rewrite getSubkeyPackets_filter. split; [reflexivity|]. split.
  - intros l. rewrite filter_In, subkey_test_true. reflexivity.
  - apply List.filter_length_le.
Qed.

(** X3: on a key with a primary key packet [getKeyIds] does not throw: it
    returns the key id of the primary key followed by the key ids of the
    subkeys in stream order, one id per key packet. *)
Theorem getKeyIds_with_primary h k primary :
  first_such (is_primary E h) (Key.packets k) primary ->
  Key.getKeyIds E h k =
    Ok (getKeyId (cell h primary)
        :: map (fun l => getKeyId (cell h l))
               (List.filter (subkey_test E h) (Key.packets k)))
  /\ forall keyIds, Key.getKeyIds E h k = Ok keyIds ->
       length keyIds = S (length (Key.getSubkeyPackets E h k)).
Proof.
  intros Hp. pose proof (getAllKeyPackets_with_primary E h k primary Hp) as Hall.
  unfold Key.getKeyIds. rewrite Hall, getKeyIds_from_map. simpl.
  split; [reflexivity|].
  intros keyIds Hok. apply Ok_inj in Hok. subst keyIds. simpl.
  now rewrite length_map, getSubkeyPackets_filter.
Qed.

(** X4: [getKeyIds] and [getSigningKeyPacket] throw exactly on a key without a
    primary key packet, and what they throw is the [TypeError] of reading
    [null]: subkeys alone do not help, and with a primary key packet
    neither of them throws. *)
Theorem key_list_readers_throw_iff h k (e : exn) :
  (Key.getKeyIds E h k = Throw e <->
   e = TypeError /\ forall l, In l (Key.packets k) -> ~ is_primary E h l)
  /\ (Key.getSigningKeyPacket E A h k = Throw e <->
      e = TypeError /\ forall l, In l (Key.packets k) -> ~ is_primary E h l).
Proof.
  unfold Key.getKeyIds, Key.getSigningKeyPacket.
  destruct (no_primary_or_first h k) as [Hno|[primary Hp]].
  - assert (Hnone := proj2 (getKeyPacket_None E h k) Hno).
    unfold Key.getAllKeyPackets. rewrite Hnone. simpl.
    split; (split; [intros [= <-]; auto|intros [-> _]; reflexivity]).
  - assert (Hhas : ~ forall l, In l (Key.packets k) -> ~ is_primary E h l).
    { intros Hno. destruct Hp as (before & after & Hps & Hprim & _).
      apply (Hno primary); [|assumption]. rewrite Hps.
      apply in_or_app. right. simpl. auto. }
    rewrite (getAllKeyPackets_with_primary E h k primary Hp).
    rewrite getKeyIds_from_map, getSigningKeyPacket_from_find.
    split; (split; [discriminate|tauto]).
Qed.
End KeyPacketLists.

(** ** What the selections return, and when they fail *)

Section SelectionResults.
Context {Packet : Type} `{PacketOps Packet}.
Variable E : PacketEnum.
Variable A : PublicKeyNames.
Implicit Types (h : Heap Packet) (k : Key.t) (l : loc).

Lemma first_such_In {X : Type} (P : X -> Prop) (xs : list X) (x : X) :
  first_such P xs x -> In x xs /\ P x.
Proof.
  intros (before & after & -> & Hx & _). split; [|assumption].
  apply in_or_app. right. simpl. auto.
Qed.

Lemma subkey_In h k l :
  In l (List.filter (subkey_test E h) (Key.packets k)) ->
  In l (Key.packets k) /\ subkey_test E h l = true.
Proof. apply filter_In. Qed.

(** X5: [getEncryptionKeyPacket] throws exactly when the key has no primary
    key packet and no subkey whose algorithm is fit for encryption; the
    exception is the [TypeError] of reading [null].  A key without a
    primary key packet whose subkey is fit still gets that subkey. *)
Theorem getEncryptionKeyPacket_throws_iff h k (e : exn) :
  Key.getEncryptionKeyPacket E A h k = Throw e <->
  e = TypeError
  /\ (forall l, In l (Key.packets k) -> ~ is_primary E h l)
  /\ (forall s, In s (Key.packets k) -> subkey_test E h s = true ->
        ~ encryption_capable A h s).
Proof.
  unfold Key.getEncryptionKeyPacket.
  rewrite getSubkeyPackets_filter, firstValidSubkey_find.
  destruct (find _ _) as [s|] eqn:Hfind.
  - split; [discriminate|]. intros (_ & _ & Hnone). exfalso.
    apply find_first_such, first_such_In in Hfind as [Hin Hvalid].
    apply subkey_In in Hin as [Hin Hsub].
    apply (Hnone s Hin Hsub). now apply isValidEncryptionKey_true.
  - assert (Hnone : forall s, In s (Key.packets k) ->
              subkey_test E h s = true -> ~ encryption_capable A h s).
    { intros s Hin Hsub Hcap. apply isValidEncryptionKey_true in Hcap.
      rewrite (proj1 (find_none_iff _ _) Hfind s) in Hcap; [discriminate|].
      apply filter_In. auto. }
    destruct (Key.getKeyPacket E h k) as [primary|] eqn:Hp.
    + split.
      * destruct (Key.isValidEncryptionKey A (cell h primary)); discriminate.
      * intros (_ & Hno & _). exfalso.
        apply getKeyPacket_Some, first_such_In in Hp as [Hin Hprim].
        exact (Hno primary Hin Hprim).
    + pose proof (proj1 (getKeyPacket_None E h k) Hp) as Hno.
      split; [intros [= <-]; auto|intros (-> & _); reflexivity].
Qed.

(** X6: whatever [getEncryptionKeyPacket] returns is a packet of the key, is a
    subkey or the primary key packet, and has an algorithm that is neither
    DSA nor RSA-sign. *)
Theorem getEncryptionKeyPacket_sound h k l :
  Key.getEncryptionKeyPacket E A h k = Ok (Some l) ->
  In l (Key.packets k)
  /\ encryption_capable A h l
  /\ (subkey_test E h l = true \/ Key.getKeyPacket E h k = Some l).
Proof.
  unfold Key.getEncryptionKeyPacket.
  rewrite getSubkeyPackets_filter, firstValidSubkey_find.
  destruct (find _ _) as [s|] eqn:Hfind.
  - intros Hok. apply Ok_inj in Hok. injection Hok as ->.
    apply find_first_such, first_such_In in Hfind as [Hin Hvalid].
    apply subkey_In in Hin as [Hin Hsub].
    apply isValidEncryptionKey_true in Hvalid. auto.
  - destruct (Key.getKeyPacket E h k) as [primary|] eqn:Hp; [|discriminate].
    destruct (Key.isValidEncryptionKey A (cell h primary)) eqn:Hvalid;
      intros Hok; apply Ok_inj in Hok; [|discriminate].
    injection Hok as ->. apply isValidEncryptionKey_true in Hvalid.
    apply getKeyPacket_Some, first_such_In in Hp as [Hin _]. auto.
Qed.

(** X7: whatever [getSigningKeyPacket] returns is a packet of the key, is the
    primary key packet or a subkey, and has one of the three signing
    algorithms; a subkey is returned only when the primary key cannot
    sign. *)
Theorem getSigningKeyPacket_sound h k l :
  Key.getSigningKeyPacket E A h k = Ok (Some l) ->
  In l (Key.packets k)
  /\ signing_capable A h l
  /\ exists primary,
       Key.getKeyPacket E h k = Some primary /\
       (l = primary \/
        (subkey_test E h l = true /\ ~ signing_capable A h primary)).
Proof.
  intros Hok. unfold Key.getSigningKeyPacket in Hok.
  destruct (no_primary_or_first E h k) as [Hno|[primary Hp]].
  - apply getKeyPacket_None in Hno. unfold Key.getAllKeyPackets in Hok.
    rewrite Hno in Hok. discriminate.
  - rewrite (getAllKeyPackets_with_primary E h k primary Hp) in Hok.
    rewrite getSigningKeyPacket_from_find in Hok. apply Ok_inj in Hok.
    apply find_first_such in Hok.
    destruct Hok as (before & after & Hkeys & Hcap & Hbefore).
    apply signing_test in Hcap.
    pose proof (proj1 (first_such_In _ _ _ Hp)) as Hin.
    apply getKeyPacket_Some in Hp.
    destruct before as [|x before]; simpl in Hkeys.
    + injection Hkeys as Heq _. subst l.
      split; [assumption|]. split; [assumption|]. exists primary. auto.
    + injection Hkeys as <- Hsub.
      assert (Hl : In l (List.filter (subkey_test E h) (Key.packets k))).
      { rewrite Hsub. apply in_or_app. right. simpl. auto. }
      apply subkey_In in Hl as [Hl Hsubkey].
      split; [assumption|]. split; [assumption|].
      exists primary. split; [assumption|]. right. split; [assumption|].
      intros Hprim. apply signing_test in Hprim.
      specialize (Hbefore primary (or_introl eq_refl)). congruence.
Qed.

(** X8: [isPublic] goes by the tag public_key alone: it is [true] exactly when
    some packet of the key carries it, so a key whose only key packets are
    secret keys or subkeys of either kind is not public. *)
Theorem isPublic_iff_public_key_packet h k :
  (Key.isPublic E h k = true <->
   exists l, In l (Key.packets k) /\ tag (cell h l) = public_key E)
  /\ (Key.isPublic E h k = false <->
      forall l, In l (Key.packets k) -> tag (cell h l) <> public_key E).
Proof.
  pose proof (isPublic_true_iff E h k) as Htrue. split; [exact Htrue|].
  destruct (Key.isPublic E h k).
  - split; [discriminate|]. intros Hno.
    destruct (proj1 Htrue eq_refl) as (l & Hin & Ht). now destruct (Hno l Hin).
  - split; [|reflexivity]. intros _ l Hin Ht.
    assert (false = true); [|discriminate].
    apply Htrue. exists l. auto.
Qed.
End SelectionResults.

(** ** Decryption by key id *)

Section DecryptKeyPacketFacts.
Context {Packet : Type} `{PacketOps Packet}.
Variable E : PacketEnum.
Implicit Types (h : Heap Packet) (k : Key.t) (l x : loc).
Implicit Types (passphrase : string) (keyId : KeyId) (keyIds : list KeyId).

Lemma decrypt_from_app passphrase (ls1 ls2 : list loc) : forall h,
  Key.decrypt_from passphrase (ls1 ++ ls2) h =
  if (Key.decrypt_from passphrase ls1 h).2
  then Key.decrypt_from passphrase ls2 (Key.decrypt_from passphrase ls1 h).1
  else Key.decrypt_from passphrase ls1 h.
Proof.
  induction ls1 as [|l ls1 IH]; intros h; [reflexivity|].
  change ((l :: ls1) ++ ls2) with (l :: (ls1 ++ ls2)).
  rewrite !decrypt_from_cons.
  destruct (call_succeeds passphrase h l); [apply IH|reflexivity].
Qed.

Lemma decrypt_from_elsewhere passphrase (ls : list loc) x : forall h,
  ~ In x ls ->
  cell (Key.decrypt_from passphrase ls h).1 x = cell h x.
Proof.
  induction ls as [|l ls IH]; intros h Hx; [reflexivity|].
  rewrite decrypt_from_cons.
  assert (Hl : cell (call_decrypt passphrase h l) x = cell h x).
  { unfold call_decrypt. simpl. destruct (Nat.eqb_spec x l); [|reflexivity].
    subst. exfalso. apply Hx. simpl; auto. }
  destruct (call_succeeds passphrase h l); [|exact Hl].
  rewrite IH by (simpl in Hx; tauto). exact Hl.
Qed.

Lemma decrypt_from_next passphrase (ls : list loc) : forall h,
  next (Key.decrypt_from passphrase ls h).1 = next h.
Proof.
  induction ls as [|l ls IH]; intros h; [reflexivity|].
  rewrite decrypt_from_cons.
  destruct (call_succeeds passphrase h l); [rewrite IH|]; reflexivity.
Qed.

Lemma decrypt_from_keeps_key_id passphrase (ls : list loc) x :
  decrypt_keeps_key_id -> forall h,
  getKeyId (cell (Key.decrypt_from passphrase ls h).1 x) = getKeyId (cell h x).
Proof.
  intros Hkeep. induction ls as [|l ls IH]; intros h; [reflexivity|].
  rewrite decrypt_from_cons.
  assert (Hl : getKeyId (cell (call_decrypt passphrase h l) x)
               = getKeyId (cell h x)).
  { unfold call_decrypt. simpl. destruct (Nat.eqb_spec x l); [|reflexivity].
    subst. apply Hkeep. }
  destruct (call_succeeds passphrase h l); [|exact Hl].
  rewrite IH. exact Hl.
Qed.

(** The inner loop makes one call per listing of the key id. *)
Lemma decryptKeyPacket_ids_calls passphrase l keyId keyIds : forall h,
  Key.decryptKeyPacket_ids passphrase l keyId keyIds h =
  Key.decrypt_from passphrase (repeat l (occurrences keyId keyIds)) h.
Proof.
  induction keyIds as [|c rest IH]; intros h; [reflexivity|].
  unfold occurrences. cbn [Key.decryptKeyPacket_ids List.filter].
  destruct (keyid_equals keyId c).
  - cbn [length repeat Key.decrypt_from].
    destruct (packet_decrypt passphrase (cell h l)) as [p' success].
    destruct (negb success); [reflexivity|apply IH].
  - apply IH.
Qed.

Lemma decryptKeyPacket_from_calls keyIds passphrase (keys : list loc) :
  decrypt_keeps_key_id -> forall h,
  Key.decryptKeyPacket_from keyIds passphrase keys h =
  Key.decrypt_from passphrase (listed_calls keyIds h keys) h.
Proof.
  intros Hkeep. induction keys as [|l rest IH]; intros h; [reflexivity|].
  cbn [Key.decryptKeyPacket_from listed_calls flat_map].
  rewrite decryptKeyPacket_ids_calls, decrypt_from_app.
  destruct (Key.decrypt_from passphrase (repeat l _) h) as [h1 success] eqn:Hl.
  cbn [fst snd negb]. destruct success; [|reflexivity].
  simpl. rewrite IH. f_equal. unfold listed_calls.
  apply flat_map_ext. intros x.
  replace h1 with (Key.decrypt_from passphrase
                     (repeat l (occurrences (getKeyId (cell h l)) keyIds)) h).1
    by now rewrite Hl.
  now rewrite decrypt_from_keeps_key_id.
Qed.

Lemma occurrences_unlisted keyId keyIds :
  ~ In keyId keyIds -> occurrences keyId keyIds = 0.
Proof.
  unfold occurrences, keyid_equals.
  induction keyIds as [|c rest IH]; intros Hnot; [reflexivity|]. simpl.
  destruct (String.eqb_spec keyId c) as [->|Hne].
  - exfalso. apply Hnot. simpl; auto.
  - apply IH. simpl in Hnot. tauto.
Qed.

Lemma occurrences_once keyId keyIds :
  List.NoDup keyIds -> In keyId keyIds -> occurrences keyId keyIds = 1.
Proof.
  intros Hnd. induction Hnd as [|c rest Hc Hnd IH]; intros Hin; [destruct Hin|].
  unfold occurrences, keyid_equals in *. simpl.
  destruct (String.eqb_spec keyId c) as [->|Hne].
  - simpl. f_equal. now apply occurrences_unlisted.
  - apply IH. destruct Hin as [Heq|Hin]; [congruence|assumption].
Qed.

Lemma decryptKeyPacket_ids_elsewhere passphrase l keyId keyIds x : forall h,
  x <> l ->
  cell (Key.decryptKeyPacket_ids passphrase l keyId keyIds h).1 x = cell h x.
Proof.
  intros h Hx. rewrite decryptKeyPacket_ids_calls.
  apply decrypt_from_elsewhere. intros Hin. apply repeat_spec in Hin. congruence.
Qed.

Lemma decryptKeyPacket_ids_unlisted passphrase l keyId keyIds h :
  ~ In keyId keyIds ->
  Key.decryptKeyPacket_ids passphrase l keyId keyIds h = (h, true).
Proof.
  intros Hnot. rewrite decryptKeyPacket_ids_calls, occurrences_unlisted by assumption.
  reflexivity.
Qed.

Lemma decryptKeyPacket_from_untouched keyIds passphrase (keys : list loc) x :
  forall h,
  ~ In x keys \/ ~ In (getKeyId (cell h x)) keyIds ->
  cell (Key.decryptKeyPacket_from keyIds passphrase keys h).1 x = cell h x.
Proof.
  induction keys as [|l rest IH]; intros h Hx; [reflexivity|].
  cbn [Key.decryptKeyPacket_from].
  destruct (Nat.eq_dec x l) as [->|Hne].
  - assert (Hunlisted : ~ In (getKeyId (cell h l)) keyIds).
    { destruct Hx as [Hx|Hx]; [|assumption]. exfalso. apply Hx. simpl; auto. }
    rewrite decryptKeyPacket_ids_unlisted by assumption. cbn [negb].
    apply IH. now right.
  - pose proof (decryptKeyPacket_ids_elsewhere passphrase l
                  (getKeyId (cell h l)) keyIds x h Hne) as Hsame.
    destruct (Key.decryptKeyPacket_ids _ _ _ _ _) as [h1 success].
    cbn [fst] in Hsame. destruct success; cbn [negb fst]; [|exact Hsame].
    rewrite IH; [exact Hsame|]. rewrite Hsame.
    destruct Hx as [Hx|Hx]; [left|now right]. simpl in Hx. tauto.
Qed.

Lemma decryptKeyPacket_from_next keyIds passphrase (keys : list loc) :
  forall h,
  next (Key.decryptKeyPacket_from keyIds passphrase keys h).1 = next h.
Proof.
  induction keys as [|l rest IH]; intros h; [reflexivity|].
  cbn [Key.decryptKeyPacket_from].
  pose proof (decrypt_from_next passphrase
                (repeat l (occurrences (getKeyId (cell h l)) keyIds)) h) as Hn.
  rewrite <- decryptKeyPacket_ids_calls in Hn.
  destruct (Key.decryptKeyPacket_ids _ _ _ _ _) as [h1 success].
  cbn [fst] in Hn. destruct success; cbn [negb fst]; [|exact Hn].
  now rewrite IH.
Qed.

Lemma secret_keys_In h k l :
  In l (filterByTag h [Some (secret_key E); Some (secret_subkey E)]
          (Key.packets k)) <->
  In l (Key.packets k) /\ is_secret E (cell h l).
Proof.
  rewrite filterByTag_In. unfold is_secret. simpl.
  split; intros [Hin Ht]; (split; [assumption|]).
  - destruct Ht as [Ht|[Ht|[]]]; injection Ht as Ht; auto.
  - destruct Ht as [Ht|Ht]; rewrite Ht; auto.
Qed.
End DecryptKeyPacketFacts.

Section DecryptKeyPacket.
Context {Packet : Type} `{PacketOps Packet}.
Variable E : PacketEnum.
Implicit Types (h : Heap Packet) (k : Key.t) (l x : loc).
Implicit Types (passphrase : string) (keyIds : list KeyId).

(** X9: when the packets' [decrypt] leaves key ids alone, [decryptKeyPacket]
    calls [decrypt(passphrase)] on the secret key packets in stream order,
    on each once per listing of its key id in [keyIds] (twice for an id
    listed twice, never for an id not listed); it returns [true] when all
    these calls succeed and stops with [false] at the first that fails,
    keeping what the calls before it did. *)
Theorem decryptKeyPacket_runs_listed_calls keyIds passphrase h k :
  decrypt_keeps_key_id ->
  let keys :=
    List.filter
      (fun l => Z.eqb (tag (cell h l)) (secret_key E)
                || Z.eqb (tag (cell h l)) (secret_subkey E))
      (Key.packets k) in
  let calls := listed_calls keyIds h keys in
  (all_succeed passphrase calls h ->
   Key.decryptKeyPacket E keyIds passphrase h k
   = (calls_in_order passphrase calls h, true))
  /\ (forall before l after,
        calls = before ++ l :: after ->
        all_succeed passphrase before h ->
        call_succeeds passphrase (calls_in_order passphrase before h) l = false ->
        Key.decryptKeyPacket E keyIds passphrase h k
        = (calls_in_order passphrase (before ++ [l]) h, false)).
Proof.
  intros Hkeep keys calls. unfold Key.decryptKeyPacket.
  rewrite filterByTag_two. fold keys.
  rewrite decryptKeyPacket_from_calls by assumption. fold calls.
  split.
  - apply decrypt_from_all_succeed.
  - intros before l after -> Hall Hfail.
    now apply decrypt_from_first_failure.
Qed.

(** X10: when the packets' [decrypt] leaves key ids alone, [keyIds] lists no id
    twice and lists the key id of every secret key packet of the key,
    [decryptKeyPacket(keyIds, passphrase)] does what [decrypt(passphrase)]
    does: same calls, same store, same answer. *)
Theorem decryptKeyPacket_agrees_with_decrypt keyIds passphrase h k :
  decrypt_keeps_key_id ->
  List.NoDup keyIds ->
  (forall l, In l (Key.packets k) -> is_secret E (cell h l) ->
     In (getKeyId (cell h l)) keyIds) ->
  Key.decryptKeyPacket E keyIds passphrase h k = Key.decrypt E passphrase h k.
Proof.
  intros Hkeep Hnd Hlisted. unfold Key.decryptKeyPacket, Key.decrypt.
  rewrite decryptKeyPacket_from_calls by assumption. f_equal.
  set (keys := filterByTag h _ (Key.packets k)).
  assert (Hkeys : forall l, In l keys -> In (getKeyId (cell h l)) keyIds).
  { intros l Hl. apply secret_keys_In in Hl as [Hin Hsec]. auto. }
  clearbody keys. unfold listed_calls.
  induction keys as [|l rest IH]; [reflexivity|]. cbn [flat_map].
  rewrite occurrences_once by (try assumption; apply Hkeys; simpl; auto).
  simpl. f_equal. apply IH. intros x Hx. apply Hkeys. simpl; auto.
Qed.

(** X11: when [getPrivateKeyPacket(keyIds)] finds no packet, in particular for
    an empty [keyIds], [decryptKeyPacket(keyIds, passphrase)] calls nothing,
    leaves the store as it is, and still answers [true]. *)
Theorem decryptKeyPacket_without_match keyIds passphrase h k :
  Key.getPrivateKeyPacket E h k keyIds = None ->
  Key.decryptKeyPacket E keyIds passphrase h k = (h, true).
Proof.
  unfold Key.getPrivateKeyPacket, Key.decryptKeyPacket.
  set (keys := filterByTag h _ (Key.packets k)). clearbody keys.
  intros Hnone.
  pose proof (proj1 (findKey_None h keys keyIds) Hnone) as Hno. clear Hnone.
  induction keys as [|l rest IH]; [reflexivity|].
  cbn [Key.decryptKeyPacket_from].
  rewrite decryptKeyPacket_ids_unlisted by (apply Hno; simpl; auto).
  cbn [negb]. apply IH. intros x Hx. apply Hno. simpl; auto.
Qed.

(** X12: [decrypt] creates no object and changes no packet object other than
    the key's own packets tagged secret_key or secret_subkey, whatever it
    answers: user ids, signatures, public packets and the packets of
    other keys in the store are as before. *)
Theorem decrypt_touches_only_secret_packets passphrase h k :
  next (Key.decrypt E passphrase h k).1 = next h
  /\ forall x,
       ~ (In x (Key.packets k) /\ is_secret E (cell h x)) ->
       cell (Key.decrypt E passphrase h k).1 x = cell h x.
Proof.
  unfold Key.decrypt. split; [apply decrypt_from_next|].
  intros x Hx. apply decrypt_from_elsewhere.
  intros Hin. apply Hx. now apply secret_keys_In in Hin.
Qed.

(** X13: [decryptKeyPacket] creates no object and changes no packet object
    other than the key's own secret key packets whose key id is listed in
    [keyIds]: a packet that is not one of these is as before, whatever
    the answer. *)
Theorem decryptKeyPacket_touches_only_listed keyIds passphrase h k :
  next (Key.decryptKeyPacket E keyIds passphrase h k).1 = next h
  /\ forall x,
       ~ (In x (Key.packets k) /\ is_secret E (cell h x)
          /\ In (getKeyId (cell h x)) keyIds) ->
       cell (Key.decryptKeyPacket E keyIds passphrase h k).1 x = cell h x.
Proof.
  unfold Key.decryptKeyPacket. split; [apply decryptKeyPacket_from_next|].
  intros x Hx. apply decryptKeyPacket_from_untouched.
  set (keys := filterByTag h _ (Key.packets k)).
  destruct (in_dec Nat.eq_dec x keys) as [Hin|Hout]; [right|now left].
  intros Hlisted. apply Hx. apply secret_keys_In in Hin as [Hin Hsec]. auto.
Qed.
End DecryptKeyPacket.

(** ** More on the conversion to a public key *)

Section ToPublicOnPublicKeys.
Context {Packet : Type} `{PacketOps Packet}.
Variable E : PacketEnum.
Implicit Types (h : Heap Packet) (k : Key.t) (ps : list loc).

Lemma toPublic_from_nothing_secret n : forall i h ps,
  (forall j l, i <= j -> ps !! j = Some l -> ~ is_secret E (cell h l)) ->
  Key.toPublic_from E n i h ps = (ps, h).
Proof.
  induction n as [|n IH]; intros i h ps Hns; [reflexivity|].
  cbn [Key.toPublic_from].
  destruct (ps !! i) as [l|] eqn:Hl; [|reflexivity].
  assert (Hl' : ~ is_secret E (cell h l)) by (apply (Hns i l); [lia|assumption]).
  unfold is_secret in Hl'.
  destruct (Z.eqb_spec (tag (cell h l)) (secret_key E)); [tauto|].
  rewrite Hl.
  destruct (Z.eqb_spec (tag (cell h l)) (secret_subkey E)); [tauto|].
  apply IH. intros j x Hj. apply Hns. lia.
Qed.

(** X14: on a key without a packet tagged secret_key or secret_subkey
    [toPublic] is the identity, for any table of tags: the list keeps its
    references, no object is created and none is changed. *)
Theorem toPublic_of_public_key h k :
  (forall l, In l (Key.packets k) -> ~ is_secret E (cell h l)) ->
  Key.toPublic E h k = (k, h).
Proof.
  intros Hns. unfold Key.toPublic.
  rewrite toPublic_from_nothing_secret; [now destruct k|].
  intros j l _ Hl. apply Hns.
  eapply list_elem_of_In, list_elem_of_lookup_2, Hl.
Qed.
End ToPublicOnPublicKeys.

Section RelatedLists.
Context {X Y : Type} (R : X -> Y -> Prop) (f : X -> bool) (g : Y -> bool).
Hypothesis Hfg : forall x y, R x y -> f x = g y.

Lemma find_Forall2 (xs : list X) (ys : list Y) :
  Forall2 R xs ys ->
  (find f xs = None /\ find g ys = None) \/
  (exists x y, find f xs = Some x /\ find g ys = Some y /\ R x y).
Proof.
  induction 1 as [|x y xs ys Hxy Hrest IH]; simpl; [now left|].
  rewrite <- (Hfg x y Hxy). destruct (f x); [|exact IH].
  right. exists x, y. auto.
Qed.

Lemma filter_Forall2 (xs : list X) (ys : list Y) :
  Forall2 R xs ys -> Forall2 R (List.filter f xs) (List.filter g ys).
Proof.
  induction 1 as [|x y xs ys Hxy Hrest IH]; simpl; [constructor|].
  rewrite <- (Hfg x y Hxy). destruct (f x); [constructor|]; assumption.
Qed.
End RelatedLists.

Lemma map_Forall2 {X Y Z : Type} (R : X -> Y -> Prop) (f : X -> Z) (g : Y -> Z)
    (xs : list X) (ys : list Y) :
  (forall x y, R x y -> f x = g y) ->
  Forall2 R xs ys -> map f xs = map g ys.
Proof.
  intros Hfg. induction 1 as [|x y xs ys Hxy Hrest IH]; simpl; [reflexivity|].
  now rewrite (Hfg x y Hxy), IH.
Qed.

Section ToPublicMore.
Context {Packet : Type} `{PacketOps Packet}.
Variable E : PacketEnum.
Variable A : PublicKeyNames.
Hypothesis Hdistinct : key_tags_distinct E.
Hypothesis Htagged : constructors_tagged E.
Implicit Types (h : Heap Packet) (k : Key.t) (ps : list loc) (p : Packet).

Lemma publicize_next ps : forall h,
  allocated h ps ->
  next (publicize E h ps).2 =
  next h + length (List.filter
                     (fun l => Z.eqb (tag (cell h l)) (secret_key E)
                               || Z.eqb (tag (cell h l)) (secret_subkey E)) ps).
Proof.
  induction ps as [|x rest IH]; intros h Halloc; [simpl; lia|].
  apply Forall_cons in Halloc as [Hx Hrest].
  cbn [publicize List.filter].
  destruct (_ || _).
  - cbn [alloc].
    set (h1 := {| cell := _; next := S (next h) |}).
    assert (Hrest1 : allocated h1 rest).
    { eapply Forall_impl; [exact Hrest|]. simpl. lia. }
    specialize (IH h1 Hrest1). destruct (publicize E h1 rest) as [rest' h2].
    cbn [fst snd] in *. rewrite IH. cbn [length next h1].
    rewrite (filter_ext_in _
               (fun l => Z.eqb (tag (cell h l)) (secret_key E)
                         || Z.eqb (tag (cell h l)) (secret_subkey E)) rest).
    + lia.
    + intros l Hl. simpl.
      assert (l < next h).
      { apply list_elem_of_In, list_elem_of_lookup_1 in Hl as [i Hi].
        apply (Forall_lookup_1 _ _ i l Hrest Hi). }
      destruct (Nat.eqb_spec l (next h)); [lia|reflexivity].
  - specialize (IH h Hrest). destruct (publicize E h rest) as [rest' h2].
    cbn [fst snd] in *. exact IH.
Qed.

Lemma toPublic_slots h k i l :
  allocated h (Key.packets k) ->
  Key.packets k !! i = Some l ->
  exists l', Key.packets (Key.toPublic E h k).1 !! i = Some l' /\
    cell (Key.toPublic E h k).2 l' = as_public E (cell h l).
Proof.
  intros Halloc Hl. rewrite toPublic_publicize by assumption.
  cbn [fst snd Key.packets].
  destruct (publicize_slots E (Key.packets k) h i l Halloc Hl)
    as (l' & Hl' & Hcell & _).
  exists l'. auto.
Qed.

Lemma toPublic_length h k :
  length (Key.packets (Key.toPublic E h k).1) = length (Key.packets k).
Proof.
  rewrite toPublic_publicize by assumption. cbn [fst Key.packets].
  apply publicize_length.
Qed.

Lemma toPublic_Forall2 h k :
  allocated h (Key.packets k) ->
  Forall2 (fun l l' => In l (Key.packets k) /\
             cell (Key.toPublic E h k).2 l' = as_public E (cell h l))
    (Key.packets k) (Key.packets (Key.toPublic E h k).1).
Proof.
  intros Halloc. apply Forall2_same_length_lookup_2.
  - symmetry. apply toPublic_length.
  - intros i l l' Hl Hl'.
    destruct (toPublic_slots h k i l Halloc Hl) as (l'' & Hl'' & Hcell).
    split; [|congruence].
    eapply list_elem_of_In, list_elem_of_lookup_2, Hl.
Qed.

Lemma toPublic_clean h k :
  allocated h (Key.packets k) ->
  forall l', In l' (Key.packets (Key.toPublic E h k).1) ->
    ~ is_secret E (cell (Key.toPublic E h k).2 l').
Proof.
  intros Halloc l' Hin.
  apply list_elem_of_In, list_elem_of_lookup_1 in Hin as [i Hi].
  destruct (lookup_lt_is_Some_2 (Key.packets k) i) as [l Hl].
  { rewrite <- toPublic_length with (h := h). eapply lookup_lt_Some, Hi. }
  destruct (toPublic_slots h k i l Halloc Hl) as (l'' & Hl'' & Hcell).
  assert (l'' = l') by congruence. subst l''.
  rewrite Hcell. now apply as_public_not_secret.
Qed.

Lemma tag_as_public p :
  tag (as_public E p) =
  if Z.eqb (tag p) (secret_key E) then public_key E
  else if Z.eqb (tag p) (secret_subkey E) then public_subkey E
       else tag p.
Proof.
  destruct Htagged as [Hpk Hpsk]. unfold as_public.
  destruct (Z.eqb (tag p) (secret_key E)); [apply Hpk|].
  destruct (Z.eqb (tag p) (secret_subkey E)); [apply Hpsk|reflexivity].
Qed.

Lemma public_tags_apart : public_key E <> public_subkey E.
Proof.
  unfold key_tags_distinct in Hdistinct.
  apply NoDup_cons_iff in Hdistinct as [Hnotin _].
  intros Heq. apply Hnotin. rewrite Heq. simpl. auto.
Qed.

Lemma as_public_primary p :
  tag (as_public E p) = public_key E <->
  tag p = public_key E \/ tag p = secret_key E.
Proof.
  destruct (tags_apart E Hdistinct) as (? & ? & ? & ? & ?).
  rewrite tag_as_public.
  destruct (Z.eqb_spec (tag p) (secret_key E)); [tauto|].
  destruct (Z.eqb_spec (tag p) (secret_subkey E)); [|tauto].
  pose proof public_tags_apart.
  split; [congruence|]. intros [Hp|Hs]; congruence.
Qed.

Lemma as_public_primary_test p :
  Z.eqb (tag (as_public E p)) (public_key E)
  || Z.eqb (tag (as_public E p)) (secret_key E)
  = Z.eqb (tag p) (public_key E) || Z.eqb (tag p) (secret_key E).
Proof.
  pose proof (as_public_primary p) as Hprim.
  pose proof (as_public_not_secret E Hdistinct Htagged p) as Hns.
  unfold is_secret in Hns.
  destruct (Z.eqb_spec (tag (as_public E p)) (secret_key E)); [tauto|].
  rewrite orb_false_r.
  destruct (Z.eqb_spec (tag (as_public E p)) (public_key E)) as [Ht|Ht].
  - symmetry. apply orb_true_iff. rewrite !Z.eqb_eq. tauto.
  - symmetry. apply orb_false_iff. rewrite !Z.eqb_neq. tauto.
Qed.

Lemma as_public_subkey_test p :
  Z.eqb (tag (as_public E p)) (public_subkey E)
  || Z.eqb (tag (as_public E p)) (secret_subkey E)
  = Z.eqb (tag p) (public_subkey E) || Z.eqb (tag p) (secret_subkey E).
Proof.
  destruct (tags_apart E Hdistinct) as (? & ? & ? & ? & ?).
  pose proof public_tags_apart.
  apply Bool.eq_iff_eq_true.
  rewrite !orb_true_iff, !Z.eqb_eq, tag_as_public.
  destruct (Z.eqb_spec (tag p) (secret_key E));
    [|destruct (Z.eqb_spec (tag p) (secret_subkey E))];
    intuition congruence.
Qed.

(** X15: [toPublic] changes no packet object: every object that existed before
    is as it was (a reference to a secret packet kept elsewhere still
    leads to the secret packet), and one new object is created per packet
    tagged secret_key or secret_subkey. *)
Theorem toPublic_keeps_old_objects h k :
  allocated h (Key.packets k) ->
  next (Key.toPublic E h k).2 =
    next h + length (List.filter
                       (fun l => Z.eqb (tag (cell h l)) (secret_key E)
                                 || Z.eqb (tag (cell h l)) (secret_subkey E))
                       (Key.packets k))
  /\ forall l, l < next h -> cell (Key.toPublic E h k).2 l = cell h l.
Proof.
  intros Halloc. rewrite toPublic_publicize by assumption. cbn [snd].
  split; [now apply publicize_next|].
  apply publicize_old_objects.
Qed.

(** X16: after [toPublic] nothing is left to unlock: [getPrivateKeyPacket]
    finds no packet for any key ids, and [decrypt] and [decryptKeyPacket]
    answer [true] for any passphrase without a call and without a change
    to the store. *)
Theorem toPublic_leaves_nothing_to_decrypt h k :
  allocated h (Key.packets k) ->
  forall (keyIds : list KeyId) (passphrase : string),
    Key.getPrivateKeyPacket E (Key.toPublic E h k).2 (Key.toPublic E h k).1
      keyIds = None
    /\ Key.decrypt E passphrase (Key.toPublic E h k).2 (Key.toPublic E h k).1
       = ((Key.toPublic E h k).2, true)
    /\ Key.decryptKeyPacket E keyIds passphrase
         (Key.toPublic E h k).2 (Key.toPublic E h k).1
       = ((Key.toPublic E h k).2, true).
Proof.
  intros Halloc keyIds passphrase.
  pose proof (toPublic_clean h k Halloc) as Hclean.
  unfold Key.getPrivateKeyPacket, Key.decrypt, Key.decryptKeyPacket.
  rewrite filterByTag_none; [repeat split|].
  intros l Hl Hin. apply (Hclean l Hl). unfold is_secret.
  destruct Hin as [Ht|[Ht|[]]]; injection Ht as Ht; auto.
Qed.

Lemma toPublic_public_key_packet h k :
  allocated h (Key.packets k) ->
  (exists l', In l' (Key.packets (Key.toPublic E h k).1) /\
     tag (cell (Key.toPublic E h k).2 l') = public_key E) <->
  exists l, In l (Key.packets k) /\ is_primary E h l.
Proof.
  intros Halloc. unfold is_primary. split.
  - intros (l' & Hin & Ht).
    apply list_elem_of_In, list_elem_of_lookup_1 in Hin as [i Hi].
    destruct (lookup_lt_is_Some_2 (Key.packets k) i) as [l Hl].
    { rewrite <- toPublic_length with (h := h). eapply lookup_lt_Some, Hi. }
    destruct (toPublic_slots h k i l Halloc Hl) as (l'' & Hl'' & Hcell).
    assert (l'' = l') by congruence. subst l''.
    rewrite Hcell in Ht. apply as_public_primary in Ht.
    exists l. split; [|assumption].
    eapply list_elem_of_In, list_elem_of_lookup_2, Hl.
  - intros (l & Hin & Ht).
    apply list_elem_of_In, list_elem_of_lookup_1 in Hin as [i Hi].
    destruct (toPublic_slots h k i l Halloc Hi) as (l' & Hl' & Hcell).
    exists l'. split.
    + eapply list_elem_of_In, list_elem_of_lookup_2, Hl'.
    + rewrite Hcell. now apply as_public_primary.
Qed.

(** X17: after [toPublic] the key is public exactly when it had a primary key
    packet, public or secret, before: a private key becomes a public one,
    and a packet list without a primary key packet stays not public. *)
Theorem isPublic_after_toPublic h k :
  allocated h (Key.packets k) ->
  Key.isPublic E (Key.toPublic E h k).2 (Key.toPublic E h k).1 = true <->
  exists l, In l (Key.packets k) /\ is_primary E h l.
Proof.
  intros Halloc. rewrite isPublic_true_iff.
  now apply toPublic_public_key_packet.
Qed.

(** X18: when, for the packets of the key, the public packet that is written
    and read back has the key id of the packet it comes from, [toPublic]
    keeps the key ids: [getKeyIds] returns after the conversion what it
    returned before (and throws when it threw before). *)
Theorem toPublic_preserves_key_ids h k :
  allocated h (Key.packets k) ->
  public_part_keeps_key_id E h (Key.packets k) ->
  Key.getKeyIds E (Key.toPublic E h k).2 (Key.toPublic E h k).1
  = Key.getKeyIds E h k.
Proof.
  intros Halloc Hid.
  pose proof (toPublic_Forall2 h k Halloc) as Hslots.
  set (h' := (Key.toPublic E h k).2) in *.
  set (k' := (Key.toPublic E h k).1) in *.
  set (R := fun l l' => In l (Key.packets k) /\
                       cell h' l' = as_public E (cell h l)) in *.
  assert (Hkid : forall l l', R l l' ->
            getKeyId (cell h l) = getKeyId (cell h' l')).
  { intros l l' [Hin ->]. symmetry. now apply Hid. }
  assert (Hprim : forall l l', R l l' ->
            Z.eqb (tag (cell h l)) (public_key E)
            || Z.eqb (tag (cell h l)) (secret_key E)
            = Z.eqb (tag (cell h' l')) (public_key E)
              || Z.eqb (tag (cell h' l')) (secret_key E)).
  { intros l l' [_ ->]. symmetry. apply as_public_primary_test. }
  assert (Hsub : Forall2 R
            (Key.getSubkeyPackets E h k) (Key.getSubkeyPackets E h' k')).
  { rewrite !getSubkeyPackets_filter. apply filter_Forall2; [|assumption].
    intros l l' [_ Hcell]. unfold subkey_test. rewrite Hcell.
    symmetry. apply as_public_subkey_test. }
  apply (map_Forall2 _ _ _ _ _ Hkid) in Hsub.
  unfold Key.getKeyIds, Key.getAllKeyPackets, Key.getKeyPacket.
  rewrite !getKeyPacket_from_find.
  destruct (find_Forall2 _ _ _ Hprim _ _ Hslots)
    as [[Hnone Hnone']|(l & l' & Hsome & Hsome' & Hcell)].
  - rewrite Hnone, Hnone'. reflexivity.
  - rewrite Hsome, Hsome'. cbn [app Key.getKeyIds_from].
    rewrite !getKeyIds_from_map, Hsub, (Hkid l l' Hcell). reflexivity.
Qed.
End ToPublicMore.

(** ** Armoring a key *)

Section Armor.
Context {Packet : Type} `{PacketOps Packet}.
Variable E : PacketEnum.
Variable R : ArmorEnum.
Variable packetlist_write : Heap Packet -> list loc -> bytes.
Variable armor_encode : Z -> bytes -> string.
Implicit Types (h : Heap Packet) (k : Key.t).

(** X19: [armor] picks the armor type by the tag public_key alone: the public
    type as soon as one packet carries it, even next to secret packets,
    and the private type otherwise, which includes a packet list without
    any primary key packet and the empty list.  The body is the
    serialization of the whole list in both cases. *)
Theorem armor_type_by_public_key_packet h k :
  ((exists l, In l (Key.packets k) /\ tag (cell h l) = public_key E) ->
   Key.armor E R packetlist_write armor_encode h k
   = armor_encode (armor_public_key R) (packetlist_write h (Key.packets k)))
  /\ ((forall l, In l (Key.packets k) -> tag (cell h l) <> public_key E) ->
      Key.armor E R packetlist_write armor_encode h k
      = armor_encode (armor_private_key R) (packetlist_write h (Key.packets k))).
Proof.
  unfold Key.armor. split.
  - intros Hpub. apply isPublic_true_iff in Hpub. now rewrite Hpub.
  - intros Hno. destruct (Key.isPublic E h k) eqn:Hpub; [|reflexivity].
    apply isPublic_true_iff in Hpub as (l & Hin & Ht).
    now destruct (Hno l Hin).
Qed.

(** X20: a key with a primary key packet, secret or public, is armored as a
    public key block once [toPublic] has run, and the block holds the
    serialization of the converted list. *)
Theorem armor_after_toPublic h k :
  key_tags_distinct E ->
  constructors_tagged E ->
  allocated h (Key.packets k) ->
  (exists l, In l (Key.packets k) /\ is_primary E h l) ->
  Key.armor E R packetlist_write armor_encode
    (Key.toPublic E h k).2 (Key.toPublic E h k).1
  = armor_encode (armor_public_key R)
      (packetlist_write (Key.toPublic E h k).2
         (Key.packets (Key.toPublic E h k).1)).
Proof.
  intros Hdistinct Htagged Halloc Hprim. unfold Key.armor.
  apply (toPublic_public_key_packet E Hdistinct Htagged h k Halloc) in Hprim.
  apply isPublic_true_iff in Hprim. now rewrite Hprim.
Qed.
End Armor.

(** * Further properties of the Symmetrically Encrypted Data packet *)

Section ContainerErrors.
Import packet_symmetrically_encrypted.
Variable PacketList : Type.
Variable Rng : Type.
Variable packets_read : bytes -> PacketList -> result PacketList.
Variable packets_write : PacketList -> bytes.
Variable cfb_decrypt : Z -> bytes -> option bytes -> bool -> result bytes.
Variable cfb_encrypt : bytes -> Z -> bytes -> bytes -> bool -> result bytes.
Variable getPrefixRandom : Z -> Rng -> bytes * Rng.

(** X21: [write] returns the bytes that [read] stored, and a successful
    [decrypt] in between does not change that: the packet still
    serializes to its cipher text. *)
Theorem write_after_read_and_decrypt (data : bytes) algorithm key
    (c c' : t PacketList) :
  decrypt packets_read cfb_decrypt algorithm key (read data c) = Ok c' ->
  write (read data c) = Some data /\ write c' = Some data.
Proof.
  intros Hd. split; [reflexivity|].
  apply decrypt_Ok in Hd as (decrypted & pl & pl' & _ & _ & _ & ->).
  reflexivity.
Qed.

(** X22: [decrypt] throws in three cases, tried in this order: the exception of
    the CFB decryption, which runs first and wins even when the packet has
    no inner list; the [TypeError] of a packet whose inner list was never
    assigned; the exception of the inner list's [read].  So a packet
    without inner list is never decrypted. *)
Theorem decrypt_throws algorithm key (c : t PacketList) (e : exn) :
  decrypt packets_read cfb_decrypt algorithm key c = Throw e <->
  cfb_decrypt algorithm key (encrypted c) true = Throw e
  \/ (exists decrypted,
        cfb_decrypt algorithm key (encrypted c) true = Ok decrypted /\
        packets c = None /\ e = TypeError)
  \/ (exists decrypted pl,
        cfb_decrypt algorithm key (encrypted c) true = Ok decrypted /\
        packets c = Some pl /\ packets_read decrypted pl = Throw e).
Proof.
  unfold decrypt, mbind, result_bind.
  destruct (cfb_decrypt _ _ _ _) as [decrypted|e1].
  - destruct (packets c) as [pl|].
    + destruct (packets_read decrypted pl) as [pl'|e2] eqn:Hr.
      * split; [discriminate|].
        intros [Hc|[(d & _ & Hp & _)|(d & pl0 & Hd & Hp & Hr0)]];
          try discriminate.
        injection Hd as <-. injection Hp as <-. congruence.
      * split.
        -- intros [= <-]. right. right. exists decrypted, pl. auto.
        -- intros [Hc|[(d & _ & Hp & _)|(d & pl0 & Hd & Hp & Hr0)]];
             try discriminate.
           injection Hd as <-. injection Hp as <-. congruence.
    + split.
      * intros [= <-]. right. left. exists decrypted. auto.
      * intros [Hc|[(d & _ & _ & ->)|(d & pl0 & _ & Hp & _)]];
          try discriminate. reflexivity.
  - split.
    + intros [= <-]. now left.
    + intros [Hc|[(d & Hd & _)|(d & pl0 & Hd & _)]]; try discriminate.
      congruence.
Qed.

(** X23: [encrypt] throws the [TypeError] of a packet whose inner list was
    never assigned, before a prefix is drawn or the cipher runs, and
    otherwise exactly what the CFB encryption of the serialized inner list
    throws; the cipher text the packet held does not matter. *)
Theorem encrypt_throws algo key (c : t PacketList) (g : Rng) (e : exn) :
  encrypt packets_write cfb_encrypt getPrefixRandom algo key c g = Throw e <->
  (packets c = None /\ e = TypeError)
  \/ (exists pl,
        packets c = Some pl /\
        cfb_encrypt (getPrefixRandom algo g).1 algo (packets_write pl) key true
        = Throw e).
Proof.
  unfold encrypt, mbind, result_bind.
  destruct (packets c) as [pl|].
  - destruct (getPrefixRandom algo g) as [prefix g1]. cbn [fst].
    destruct (cfb_encrypt _ _ _ _ _) as [ct|e1] eqn:Hct.
    + split; [discriminate|].
      intros [[Hp _]|(pl0 & Hp & He)]; [discriminate|].
      injection Hp as <-. congruence.
    + split.
      * intros [= <-]. right. exists pl. auto.
      * intros [[Hp _]|(pl0 & Hp & He)]; [discriminate|].
        injection Hp as <-. congruence.
  - split.
    + intros [= <-]. now left.
    + intros [[_ ->]|(pl0 & Hp & _)]; [reflexivity|discriminate].
Qed.
End ContainerErrors.

(** * The further properties on sample keys and packets *)

Lemma sample_decrypt_keeps_key_id :
  decrypt_keeps_key_id (Packet := Sample.KeyPacket).
Proof.
  intros passphrase p. simpl.
  destruct (String.eqb passphrase (Sample.kp_passphrase p)); reflexivity.
Defined.

Lemma sample_allocated (ps : list Sample.KeyPacket) :
  allocated (Sample.heap_of ps) (Key.packets (Sample.key_of ps)).
Proof.
  unfold allocated, Sample.key_of, Sample.heap_of. simpl.
  apply Forall_forall. intros l Hl. apply list_elem_of_In, in_seq in Hl. lia.
Defined.

(** The public key block: the key id of the primary key, then that of the
    subkey; the user id in between has none. *)
Lemma getKeyIds_with_primary_witness :
  Key.getKeyIds rfc4880_packet
    (Sample.heap_of Sample.public_key_block)
    (Sample.key_of Sample.public_key_block)
  = Ok ["A1B2C3D4E5F60718"%string; "0F1E2D3C4B5A6978"%string].
Proof.
  assert (Hprimary : first_such
    (is_primary rfc4880_packet (Sample.heap_of Sample.public_key_block))
    (Key.packets (Sample.key_of Sample.public_key_block)) 0).
  { apply first_such_head. left. reflexivity. }
  exact (proj1 (getKeyIds_with_primary rfc4880_packet
                  (Sample.heap_of Sample.public_key_block)
                  (Sample.key_of Sample.public_key_block) 0 Hprimary)).
Defined.

Lemma getEncryptionKeyPacket_sound_witness :
  In 1 (Key.packets (Sample.key_of Sample.sign_and_encrypt))
  /\ encryption_capable rfc4880_publicKey
       (Sample.heap_of Sample.sign_and_encrypt) 1
  /\ (subkey_test rfc4880_packet (Sample.heap_of Sample.sign_and_encrypt) 1
      = true
      \/ Key.getKeyPacket rfc4880_packet
           (Sample.heap_of Sample.sign_and_encrypt)
           (Sample.key_of Sample.sign_and_encrypt) = Some 1).
Proof.
  exact (getEncryptionKeyPacket_sound rfc4880_packet rfc4880_publicKey
           (Sample.heap_of Sample.sign_and_encrypt)
           (Sample.key_of Sample.sign_and_encrypt) 1 eq_refl).
Defined.

Lemma getSigningKeyPacket_sound_witness :
  In 0 (Key.packets (Sample.key_of Sample.sign_and_encrypt))
  /\ signing_capable rfc4880_publicKey
       (Sample.heap_of Sample.sign_and_encrypt) 0
  /\ exists primary,
       Key.getKeyPacket rfc4880_packet
         (Sample.heap_of Sample.sign_and_encrypt)
         (Sample.key_of Sample.sign_and_encrypt) = Some primary /\
       (0 = primary \/
        (subkey_test rfc4880_packet
           (Sample.heap_of Sample.sign_and_encrypt) 0 = true /\
         ~ signing_capable rfc4880_publicKey
             (Sample.heap_of Sample.sign_and_encrypt) primary)).
Proof.
  exact (getSigningKeyPacket_sound rfc4880_packet rfc4880_publicKey
           (Sample.heap_of Sample.sign_and_encrypt)
           (Sample.key_of Sample.sign_and_encrypt) 0 eq_refl).
Defined.

(** The key id of the first subkey listed twice: its [decrypt] runs twice,
    and no other packet is called. *)
Lemma decryptKeyPacket_runs_listed_calls_witness :
  Key.decryptKeyPacket rfc4880_packet
    ["0F1E2D3C4B5A6978"%string; "0F1E2D3C4B5A6978"%string] "second"
    (Sample.heap_of Sample.mixed_passphrases)
    (Sample.key_of Sample.mixed_passphrases)
  = (calls_in_order "second" [2; 2] (Sample.heap_of Sample.mixed_passphrases),
     true).
Proof.
  apply (proj1 (decryptKeyPacket_runs_listed_calls rfc4880_packet
                  ["0F1E2D3C4B5A6978"%string; "0F1E2D3C4B5A6978"%string]
                  "second"
                  (Sample.heap_of Sample.mixed_passphrases)
                  (Sample.key_of Sample.mixed_passphrases)
                  sample_decrypt_keeps_key_id)).
  intros [|[|i]] l Hl; try discriminate; injection Hl as <-; reflexivity.
Defined.

Lemma decryptKeyPacket_agrees_with_decrypt_witness :
  Key.decryptKeyPacket rfc4880_packet
    ["0F1E2D3C4B5A6978"%string; "A1B2C3D4E5F60718"%string] "first"
    (Sample.heap_of Sample.sign_and_encrypt)
    (Sample.key_of Sample.sign_and_encrypt)
  = Key.decrypt rfc4880_packet "first"
      (Sample.heap_of Sample.sign_and_encrypt)
      (Sample.key_of Sample.sign_and_encrypt).
Proof.
  apply decryptKeyPacket_agrees_with_decrypt.
  - exact sample_decrypt_keeps_key_id.
  - repeat (apply List.NoDup_cons; [simpl; intuition discriminate|]).
    apply List.NoDup_nil.
  - intros l [<-|[<-|[]]] _; simpl; auto.
Defined.

(** A key id that no packet has: nothing is called, the answer is [true]. *)
Lemma decryptKeyPacket_without_match_witness :
  Key.decryptKeyPacket rfc4880_packet ["FFFFFFFFFFFFFFFF"%string] "first"
    (Sample.heap_of Sample.mixed_passphrases)
    (Sample.key_of Sample.mixed_passphrases)
  = (Sample.heap_of Sample.mixed_passphrases, true).
Proof.
  apply decryptKeyPacket_without_match. reflexivity.
Defined.

Lemma toPublic_of_public_key_witness :
  Key.toPublic rfc4880_packet
    (Sample.heap_of Sample.public_key_block)
    (Sample.key_of Sample.public_key_block)
  = (Sample.key_of Sample.public_key_block,
     Sample.heap_of Sample.public_key_block).
Proof.
  apply toPublic_of_public_key.
  intros l [<-|[<-|[<-|[]]]] [Hs|Hs]; discriminate.
Defined.

(** Three of the four packets are secret: three objects are created, and
    the four objects of the key are as before. *)
Lemma toPublic_keeps_old_objects_witness :
  next (Key.toPublic rfc4880_packet
          (Sample.heap_of Sample.mixed_passphrases)
          (Sample.key_of Sample.mixed_passphrases)).2 = 7
  /\ forall l, l < 4 ->
       cell (Key.toPublic rfc4880_packet
               (Sample.heap_of Sample.mixed_passphrases)
               (Sample.key_of Sample.mixed_passphrases)).2 l
       = cell (Sample.heap_of Sample.mixed_passphrases) l.
Proof.
  exact (toPublic_keeps_old_objects rfc4880_packet
           rfc4880_tags_distinct sample_constructors_tagged
           (Sample.heap_of Sample.mixed_passphrases)
           (Sample.key_of Sample.mixed_passphrases)
           (sample_allocated Sample.mixed_passphrases)).
Defined.

Lemma toPublic_leaves_nothing_to_decrypt_witness :
  Key.getPrivateKeyPacket rfc4880_packet
    (Key.toPublic rfc4880_packet
       (Sample.heap_of Sample.mixed_passphrases)
       (Sample.key_of Sample.mixed_passphrases)).2
    (Key.toPublic rfc4880_packet
       (Sample.heap_of Sample.mixed_passphrases)
       (Sample.key_of Sample.mixed_passphrases)).1
    ["A1B2C3D4E5F60718"%string] = None.
Proof.
  exact (proj1 (toPublic_leaves_nothing_to_decrypt rfc4880_packet
                  rfc4880_tags_distinct sample_constructors_tagged
                  (Sample.heap_of Sample.mixed_passphrases)
                  (Sample.key_of Sample.mixed_passphrases)
                  (sample_allocated Sample.mixed_passphrases)
                  ["A1B2C3D4E5F60718"%string] "first")).
Defined.

(** The private sample key is public after the conversion. *)
Lemma isPublic_after_toPublic_witness :
  Key.isPublic rfc4880_packet
    (Key.toPublic rfc4880_packet
       (Sample.heap_of Sample.mixed_passphrases)
       (Sample.key_of Sample.mixed_passphrases)).2
    (Key.toPublic rfc4880_packet
       (Sample.heap_of Sample.mixed_passphrases)
       (Sample.key_of Sample.mixed_passphrases)).1 = true.
Proof.
  apply (isPublic_after_toPublic rfc4880_packet
           rfc4880_tags_distinct sample_constructors_tagged
           (Sample.heap_of Sample.mixed_passphrases)
           (Sample.key_of Sample.mixed_passphrases)
           (sample_allocated Sample.mixed_passphrases)).
  exists 0. split; [simpl; auto|]. right. reflexivity.
Defined.

Lemma toPublic_preserves_key_ids_witness :
  Key.getKeyIds rfc4880_packet
    (Key.toPublic rfc4880_packet
       (Sample.heap_of Sample.mixed_passphrases)
       (Sample.key_of Sample.mixed_passphrases)).2
    (Key.toPublic rfc4880_packet
       (Sample.heap_of Sample.mixed_passphrases)
       (Sample.key_of Sample.mixed_passphrases)).1
  = Key.getKeyIds rfc4880_packet
      (Sample.heap_of Sample.mixed_passphrases)
      (Sample.key_of Sample.mixed_passphrases).
Proof.
  apply (toPublic_preserves_key_ids rfc4880_packet
           rfc4880_tags_distinct sample_constructors_tagged
           (Sample.heap_of Sample.mixed_passphrases)
           (Sample.key_of Sample.mixed_passphrases)
           (sample_allocated Sample.mixed_passphrases)).
  intros l [<-|[<-|[<-|[<-|[]]]]]; reflexivity.
Defined.

(** The private sample key, converted, is armored as a public key block
    that lists the four key ids of the converted list. *)
Lemma armor_after_toPublic_witness :
  Key.armor rfc4880_packet Sample.armor_types
    Sample.write_key_ids Sample.encode_block
    (Key.toPublic rfc4880_packet
       (Sample.heap_of Sample.mixed_passphrases)
       (Sample.key_of Sample.mixed_passphrases)).2
    (Key.toPublic rfc4880_packet
       (Sample.heap_of Sample.mixed_passphrases)
       (Sample.key_of Sample.mixed_passphrases)).1
  = "PUBLIC KEY BLOCK A1B2C3D4E5F60718;;0F1E2D3C4B5A6978;1122334455667788;"%string.
Proof.
  assert (Hprimary : exists l,
    In l (Key.packets (Sample.key_of Sample.mixed_passphrases)) /\
    is_primary rfc4880_packet (Sample.heap_of Sample.mixed_passphrases) l).
  { exists 0. split; [simpl; auto|]. right. reflexivity. }
  exact (armor_after_toPublic rfc4880_packet Sample.armor_types
           Sample.write_key_ids Sample.encode_block
           (Sample.heap_of Sample.mixed_passphrases)
           (Sample.key_of Sample.mixed_passphrases)
           rfc4880_tags_distinct sample_constructors_tagged
           (sample_allocated Sample.mixed_passphrases) Hprimary).
Defined.

(** The packet read from the wire still writes its cipher text after it
    has been decrypted. *)
Lemma write_after_read_and_decrypt_witness :
  packet_symmetrically_encrypted.write Sample.received = Some "hello"%string
  /\ packet_symmetrically_encrypted.write
       {| packet_symmetrically_encrypted.encrypted := Some "hello"%string;
          packet_symmetrically_encrypted.packets := Some ["hello"%string] |}
     = Some "hello"%string.
Proof.
  exact (write_after_read_and_decrypt (list bytes)
           Sample.chunks_read Sample.plain_decrypt "hello" 0%Z "key"
           {| packet_symmetrically_encrypted.encrypted := None;
              packet_symmetrically_encrypted.packets := Some [] |}
           {| packet_symmetrically_encrypted.encrypted := Some "hello"%string;
              packet_symmetrically_encrypted.packets := Some ["hello"%string] |}
           eq_refl).
Defined.

(** With the passphrase of the primary key the user id at location 1 is
    as before, and so is the last subkey, which is not reached. *)
Lemma decrypt_touches_only_secret_packets_witness :
  cell (Key.decrypt rfc4880_packet "first"
          (Sample.heap_of Sample.mixed_passphrases)
          (Sample.key_of Sample.mixed_passphrases)).1 1
  = Sample.userid.
Proof.
  apply (proj2 (decrypt_touches_only_secret_packets rfc4880_packet "first"
                  (Sample.heap_of Sample.mixed_passphrases)
                  (Sample.key_of Sample.mixed_passphrases)) 1).
  intros [_ [Hs|Hs]]; discriminate.
Defined.

(** Only the id of the last subkey is listed: the primary key, whose
    passphrase is the same, stays locked. *)
Lemma decryptKeyPacket_touches_only_listed_witness :
  Sample.kp_decrypted
    (cell (Key.decryptKeyPacket rfc4880_packet
             ["1122334455667788"%string] "first"
             (Sample.heap_of Sample.mixed_passphrases)
             (Sample.key_of Sample.mixed_passphrases)).1 0) = false.
Proof.
  rewrite (proj2 (decryptKeyPacket_touches_only_listed rfc4880_packet
                    ["1122334455667788"%string] "first"
                    (Sample.heap_of Sample.mixed_passphrases)
                    (Sample.key_of Sample.mixed_passphrases)) 0).
  - reflexivity.
  - intros (_ & _ & [Hid|[]]). discriminate.
Defined.

(** A private key is armored as a private key block. *)
Lemma armor_type_by_public_key_packet_witness :
  Key.armor rfc4880_packet Sample.armor_types
    Sample.write_key_ids Sample.encode_block
    (Sample.heap_of Sample.secret_only) (Sample.key_of Sample.secret_only)
  = "PRIVATE KEY BLOCK A1B2C3D4E5F60718;"%string.
Proof.
  apply (proj2 (armor_type_by_public_key_packet rfc4880_packet
                  Sample.armor_types Sample.write_key_ids Sample.encode_block
                  (Sample.heap_of Sample.secret_only)
                  (Sample.key_of Sample.secret_only))).
  intros l [<-|[]]. discriminate.
Defined.
